(** * The js/wasm file-descriptor layer of package syscall (fs_js.go)

    A shallow embedding of [src/syscall/fs_js.go]: the descriptor table
    [files], the wrapper [fsCall] around the host's [fs] object, and every
    syscall entry point of the file, followed by the properties of the
    descriptor state machine.

    Conventions of the embedding.
    - Go's [int] and [int64] are both 64 bits wide on wasm; they are carried
      as [Z], and [int64] writes out the wrap-around of the additions on the
      cursor.  Lengths of slices and strings are carried without wrap-around:
      they are bounded by the address space.
    - A Go [error] is [option Errno], [None] standing for [nil].
    - A Go panic is an outcome of its own ([Panicked]); [recoverErr] turns
      the translatable ones back into error results.
    - The table [files] maps a descriptor to a pointer to its record.  [Open]
      allocates a fresh record for every insertion and no entry point copies
      a pointer into a second slot, so a record is reachable from one slot
      only; the table is carried as a map from descriptors to records, and
      the assignments through the pointer ([f.pos += n]) as updates of that
      slot.
    - The mutex [filesMu] only brackets the table accesses; the embedding is
      sequential and leaves it out. *)

From Stdlib Require Import ZArith Lia.
From Stdlib.Strings Require Import Byte.
From Stdlib.Strings Require Ascii String.
From stdpp Require Import base gmap list strings.

Open Scope Z_scope.

(** ** Machine integers and bytes *)

Definition int64 (z : Z) : Z := (z + 2 ^ 63) mod 2 ^ 64 - 2 ^ 63.

Definition byte_of_Z (z : Z) : byte :=
  default x00 (Byte.of_N (Z.to_N (z mod 256))).

Definition Z_of_byte (b : byte) : Z := Z.of_N (Byte.to_N b).

(** The value of a two-byte little-endian field. *)
Definition le16 (b0 b1 : byte) : Z := Z_of_byte b0 + 256 * Z_of_byte b1.

(** [len(s)] of a Go string and its bytes. *)
Definition len (s : string) : Z := Z.of_nat (String.length s).
Definition bytes (s : string) : list byte := String.list_byte_of_string s.

(** The builtin [copy(dst, src)]: the contents of [dst] afterwards. *)
Definition copy (dst src : list byte) : list byte :=
  take (length dst) src ++ drop (length src) dst.

(** ** Errors *)

Definition Errno := Z.
Definition error := option Errno.

(** Modelled from the spec: the error numbers are declared in the package's
    errno table, which is not part of fs_js.go.  The spec names the three used
    here "unknown descriptor", "invalid argument" and "not supported"; they
    carry their POSIX numbers, and the development only relies on their being
    different from one another. *)
Definition EBADF : Errno := 9.
Definition EINVAL : Errno := 22.
Definition ENOSYS : Errno := 38.

(** Modelled from the spec: [errnoErr] is declared next to the errno table.
    Section 4.2 describes its result as "a normal error result carrying that
    POSIX errno". *)
Definition errnoErr (e : Errno) : error := Some e.

(** The constants of package io used by [Seek]. *)
Definition SeekStart : Z := 0.
Definition SeekCurrent : Z := 1.
Definition SeekEnd : Z := 2.

(** ** Values crossing the host boundary *)

(** The host's metadata object, each numeric property as its [Int()].  The
    flag [isDirectory] is what the object's [isDirectory] method answers on a
    host that serves the method from the object; the entry points never read
    the flag, they call the method through the host (see [Open]). *)
Record jsStats := {
  isDirectory : bool;
  dev : Z; ino : Z; mode : Z; nlink : Z; uid : Z; gid : Z; rdev : Z;
  size : Z; blksize : Z; blocks : Z;
  atimeMs : Z; mtimeMs : Z; ctimeMs : Z
}.

Definition zeroStats : jsStats :=
  {| isDirectory := false; dev := 0; ino := 0; mode := 0; nlink := 0;
     uid := 0; gid := 0; rdev := 0; size := 0; blksize := 0; blocks := 0;
     atimeMs := 0; mtimeMs := 0; ctimeMs := 0 |}.

#[warnings="-register-all"]
Inductive jsValue :=
| jsUndefined
| jsBool (b : bool)
| jsNumber (n : Z)
| jsString (s : string)
| jsArray (elems : list jsValue)
| jsObject (st : jsStats).

(** The accessors of package syscall/js, as total projections: a value of
    another shape projects to the zero value. *)
Definition Value_Bool (v : jsValue) : bool :=
  match v with jsBool b => b | _ => false end.
Definition Value_Int (v : jsValue) : Z :=
  match v with jsNumber n => n | _ => 0 end.
Definition Value_String (v : jsValue) : string :=
  match v with jsString s => s | _ => "" end.
Definition Value_Length (v : jsValue) : nat :=
  match v with jsArray l => length l | _ => 0%nat end.
Definition Value_Index (v : jsValue) (i : nat) : jsValue :=
  match v with jsArray l => default jsUndefined (l !! i) | _ => jsUndefined end.
Definition Value_Stats (v : jsValue) : jsStats :=
  match v with jsObject st => st | _ => zeroStats end.

(** Arguments handed to a host call. *)
Inductive goValue :=
| GoString (s : string)
| GoInt (n : Z)
| GoBytes (b : list byte).

(** The receiver of a call: the host's [fs] object, its [process] object, or
    a value the host has returned ([jsThis v] for [v.Call(...)]). *)
Inductive jsReceiver := jsFS | jsProcess | jsThis (v : jsValue).

(** What a panic carries: a [js.Error] with its [code] property, or anything
    else. *)
Inductive panicValue :=
| JsError (code : string)
| OtherPanic.

Inductive jsOutcome :=
| Returns (v : jsValue)
| Throws (p : panicValue).

Definition hostCall : Type := jsReceiver * string * list goValue.

(** The collaborators of the file: the host (its state and what a call on
    [fs] or [process] does), the host's open-flag constants read at start-up,
    and the declarations of the package that live in other files (the
    abstract open-flag bits and the table [errnoByCode]). *)
Class Host := {
  World : Type;
  jsCall : jsReceiver -> string -> list goValue -> World -> jsOutcome * World;
  errnoByCode : string -> option Errno;
  O_WRONLY : Z; O_RDWR : Z; O_CREATE : Z; O_TRUNC : Z;
  O_APPEND : Z; O_EXCL : Z; O_NONBLOCK : Z; O_SYNC : Z;
  nodeWRONLY : Z; nodeRDWR : Z; nodeCREATE : Z; nodeTRUNC : Z;
  nodeAPPEND : Z; nodeEXCL : Z; nodeNONBLOCK : Z; nodeSYNC : Z
}.

(** ** The descriptor record and the table *)

Record jsFile := {
  path : string;
  entries : option (list string);   (* [None] is the nil slice *)
  pos : Z;
  seeked : bool
}.

Definition zeroFile : jsFile :=
  {| path := ""; entries := None; pos := 0; seeked := false |}.

Definition set_entries (es : option (list string)) (f : jsFile) : jsFile :=
  {| path := path f; entries := es; pos := pos f; seeked := seeked f |}.
Definition set_pos (p : Z) (f : jsFile) : jsFile :=
  {| path := path f; entries := entries f; pos := p; seeked := seeked f |}.
Definition set_seeked (b : bool) (f : jsFile) : jsFile :=
  {| path := path f; entries := entries f; pos := pos f; seeked := b |}.

(** [var files = map[int]*jsFile{0: &jsFile{}, 1: &jsFile{}, 2: &jsFile{}}] *)
Definition files0 : gmap Z jsFile :=
  <[0 := zeroFile]> (<[1 := zeroFile]> (<[2 := zeroFile]> ∅)).

(** ** Metadata *)

Record Stat_t := {
  Dev : Z; Ino : Z; Mode : Z; Nlink : Z; Uid : Z; Gid : Z; Rdev : Z;
  Size : Z; Blksize : Z; Blocks : Z;
  Atime : Z; AtimeNsec : Z; Mtime : Z; MtimeNsec : Z; Ctime : Z; CtimeNsec : Z
}.

Definition uint64 (z : Z) : Z := z mod 2 ^ 64.
Definition uint32 (z : Z) : Z := z mod 2 ^ 32.
Definition int32 (z : Z) : Z := (z + 2 ^ 31) mod 2 ^ 32 - 2 ^ 31.

(** Go's [/] and [%] truncate towards zero: [Z.quot] and [Z.rem]. *)
Definition setStat (jsSt : jsStats) : Stat_t :=
  let atime := int64 (atimeMs jsSt) in
  let mtime := int64 (mtimeMs jsSt) in
  let ctime := int64 (ctimeMs jsSt) in
  {| Dev := int64 (dev jsSt);
     Ino := uint64 (ino jsSt);
     Mode := uint32 (mode jsSt);
     Nlink := uint32 (nlink jsSt);
     Uid := uint32 (uid jsSt);
     Gid := uint32 (gid jsSt);
     Rdev := int64 (rdev jsSt);
     Size := int64 (size jsSt);
     Blksize := int32 (blksize jsSt);
     Blocks := int32 (blocks jsSt);
     Atime := int64 (Z.quot atime 1000);
     AtimeNsec := int64 (Z.rem atime 1000 * 1000000);
     Mtime := int64 (Z.quot mtime 1000);
     MtimeNsec := int64 (Z.rem mtime 1000 * 1000000);
     Ctime := int64 (Z.quot ctime 1000);
     CtimeNsec := int64 (Z.rem ctime 1000 * 1000000) |}.

Record Timespec := { Sec : Z; Nsec : Z }.

(** ** Paths *)

Fixpoint hasNul (s : string) : bool :=
  match s with
  | String.EmptyString => false
  | String.String c rest => if Ascii.eqb c Ascii.zero then true else hasNul rest
  end.

Definition checkPath (path : string) : error :=
  if String.eqb path "" then Some EINVAL
  else if hasNul path then Some EINVAL
  else None.

(** ** The directory-entry loop of [ReadDirent]

    [direntLoop entries buf n] runs the [for] loop from the queue [entries],
    the window [buf] and the count [n]; it yields the queue left, the
    contents of the window [buf] had on entry, and the final count. *)
Fixpoint direntLoop (entries : list string) (buf : list byte) (n : Z)
  : list string * list byte * Z :=
  match entries with
  | [] => ([], buf, n)
  | entry :: rest =>
      let l := 2 + len entry in
      if l >? Z.of_nat (length buf) then (entries, buf, n)
      else
        let buf := <[0%nat := byte_of_Z l]> buf in
        let buf := <[1%nat := byte_of_Z (Z.shiftr l 8)]> buf in
        let buf := take 2 buf ++ copy (drop 2 buf) (bytes entry) in
        let '(entries', tail, n') :=
          direntLoop rest (drop (Z.to_nat l) buf) (n + l) in
        (entries', take (Z.to_nat l) buf ++ tail, n')
  end.

(** ** State, panics and the wrapper around host calls *)

Inductive result (A : Type) :=
| Done (a : A)
| Panicked (p : panicValue).
Arguments Done {A} a.
Arguments Panicked {A} p.

Section Syscalls.
Context `{Host}.

(** The state of the process as far as this file is concerned: the table,
    the host, and the host calls made so far (oldest first). *)
Record State := {
  files : gmap Z jsFile;
  world : World;
  calls : list hostCall
}.

Definition M (A : Type) : Type := State -> result A * State.

Definition ret {A} (a : A) : M A := fun s => (Done a, s).

Definition bind {A B} (m : M A) (k : A -> M B) : M B :=
  fun s =>
    match m s with
    | (Done a, s') => k a s'
    | (Panicked p, s') => (Panicked p, s')
    end.

Notation "'let*' x ':=' m 'in' k" := (bind m (fun x => k))
  (at level 10, x pattern, m at level 100, k at level 200, only parsing).

(** The state with another table, and the state after one more host call. *)
Definition withFiles (m : gmap Z jsFile) (s : State) : State :=
  {| files := m; world := world s; calls := calls s |}.

Definition afterCall (s : State) (w : World) (c : hostCall) : State :=
  {| files := files s; world := w; calls := calls s ++ [c] |}.

(** [files[fd] = f], and [delete(files, fd)]. *)
Definition setFile (fd : Z) (f : jsFile) : M unit :=
  fun s => (Done (), withFiles (<[fd := f]> (files s)) s).

Definition deleteFile (fd : Z) : M unit :=
  fun s => (Done (), withFiles (delete fd (files s)) s).

(** [jsFS.Call(name, args...)], [jsProcess.Call(name, args...)] and
    [v.Call(name, args...)]: the call is recorded, the host moves on, and a
    thrown value is a panic. *)
Definition Call (recv : jsReceiver) (name : string) (args : list goValue)
  : M jsValue :=
  fun s =>
    let '(o, w) := jsCall recv name args (world s) in
    let s' := afterCall s w (recv, name, args) in
    match o with
    | Returns v => (Done v, s')
    | Throws p => (Panicked p, s')
    end.

(** [defer recoverErr(&err)] around a body with named results: a panic that
    is a [js.Error] whose code is in [errnoByCode] becomes the error result
    (the other results keeping the value [zero] they had when the body
    panicked); any other panic goes on. *)
Definition recoverErr {A} (zero : A) (body : M A) : M (A * error) :=
  fun s =>
    match body s with
    | (Done a, s') => (Done (a, None), s')
    | (Panicked (JsError code), s') =>
        match errnoByCode code with
        | Some errno => (Done (zero, errnoErr errno), s')
        | None => (Panicked (JsError code), s')
        end
    | (Panicked OtherPanic, s') => (Panicked OtherPanic, s')
    end.

Definition fsCall (name : string) (args : list goValue) : M (jsValue * error) :=
  recoverErr jsUndefined (Call jsFS name args).

(** The nil pointer of the failing case is never dereferenced; it is carried
    as the zero record. *)
Definition fdToFile (fd : Z) : M (jsFile * error) :=
  fun s =>
    match files s !! fd with
    | None => (Done (zeroFile, Some EBADF), s)
    | Some f => (Done (f, None), s)
    end.

(** ** The entry points *)

Definition openFlags (openmode : Z) : Z :=
  let flags := 0 in
  let flags := if Z.land openmode O_WRONLY =? 0 then flags
               else Z.lor flags nodeWRONLY in
  let flags := if Z.land openmode O_RDWR =? 0 then flags
               else Z.lor flags nodeRDWR in
  let flags := if Z.land openmode O_CREATE =? 0 then flags
               else Z.lor flags nodeCREATE in
  let flags := if Z.land openmode O_TRUNC =? 0 then flags
               else Z.lor flags nodeTRUNC in
  let flags := if Z.land openmode O_APPEND =? 0 then flags
               else Z.lor flags nodeAPPEND in
  let flags := if Z.land openmode O_EXCL =? 0 then flags
               else Z.lor flags nodeEXCL in
  let flags := if Z.land openmode O_NONBLOCK =? 0 then flags
               else Z.lor flags nodeNONBLOCK in
  let flags := if Z.land openmode O_SYNC =? 0 then flags
               else Z.lor flags nodeSYNC in
  flags.

(** [entries[i] = dir.Index(i).String()] for [i] over [make([]string,
    dir.Length())]. *)
Definition dirEntries (dir : jsValue) : list string :=
  (fun i => Value_String (Value_Index dir i)) <$> seq 0 (Value_Length dir).

Definition Open (path : string) (openmode : Z) (perm : Z) : M (Z * error) :=
  match checkPath path with
  | Some err => ret (0, Some err)
  | None =>
    let flags := openFlags openmode in
    let* (jsFD, err) := fsCall "openSync" [GoString path; GoInt flags; GoInt perm] in
    match err with
    | Some err => ret (0, Some err)
    | None =>
      let fd := Value_Int jsFD in
      let insert (entries : option (list string)) : M (Z * error) :=
        let f := {| path := path; entries := entries; pos := 0; seeked := false |} in
        let* _ := setFile fd f in
        ret (fd, None) in
      let* (stat, err) := fsCall "fstatSync" [GoInt fd] in
      match err with
      | None =>
        (* [stat.Call("isDirectory")] is not under [recoverErr] *)
        let* isDir := Call (jsThis stat) "isDirectory" [] in
        if Value_Bool isDir then
          let* (dir, err) := fsCall "readdirSync" [GoString path] in
          match err with
          | Some err => ret (0, Some err)
          | None => insert (Some (dirEntries dir))
          end
        else insert None
      | Some _ => insert None
      end
    end
  end.

Definition Close (fd : Z) : M error :=
  let* _ := deleteFile fd in
  let* (_, err) := fsCall "closeSync" [GoInt fd] in
  ret err.

Definition CloseOnExec (fd : Z) : M unit := ret ().

(** The shape shared by the entry points that check a path and hand it to
    one host call whose value is dropped. *)
Definition Mkdir (path : string) (perm : Z) : M error :=
  match checkPath path with
  | Some err => ret (Some err)
  | None =>
    let* (_, err) := fsCall "mkdirSync" [GoString path; GoInt perm] in
    ret err
  end.

(** The caller's buffer after the call comes first in the result. *)
Definition ReadDirent (fd : Z) (buf : list byte) : M (list byte * Z * error) :=
  let* (f, err) := fdToFile fd in
  match err with
  | Some err => ret (buf, 0, Some err)
  | None =>
    match entries f with
    | None => ret (buf, 0, Some EINVAL)
    | Some es =>
      let '(es', buf', n) := direntLoop es buf 0 in
      let* _ := setFile fd (set_entries (Some es') f) in
      ret (buf', n, None)
    end
  end.

Definition Stat (path : string) (st : Stat_t) : M (Stat_t * error) :=
  match checkPath path with
  | Some err => ret (st, Some err)
  | None =>
    let* (jsSt, err) := fsCall "statSync" [GoString path] in
    match err with
    | Some err => ret (st, Some err)
    | None => ret (setStat (Value_Stats jsSt), None)
    end
  end.

Definition Lstat (path : string) (st : Stat_t) : M (Stat_t * error) :=
  match checkPath path with
  | Some err => ret (st, Some err)
  | None =>
    let* (jsSt, err) := fsCall "lstatSync" [GoString path] in
    match err with
    | Some err => ret (st, Some err)
    | None => ret (setStat (Value_Stats jsSt), None)
    end
  end.

Definition Fstat (fd : Z) (st : Stat_t) : M (Stat_t * error) :=
  let* (jsSt, err) := fsCall "fstatSync" [GoInt fd] in
  match err with
  | Some err => ret (st, Some err)
  | None => ret (setStat (Value_Stats jsSt), None)
  end.

Definition Unlink (path : string) : M error :=
  match checkPath path with
  | Some err => ret (Some err)
  | None => let* (_, err) := fsCall "unlinkSync" [GoString path] in ret err
  end.

Definition Rmdir (path : string) : M error :=
  match checkPath path with
  | Some err => ret (Some err)
  | None => let* (_, err) := fsCall "rmdirSync" [GoString path] in ret err
  end.

Definition Chmod (path : string) (mode : Z) : M error :=
  match checkPath path with
  | Some err => ret (Some err)
  | None =>
    let* (_, err) := fsCall "chmodSync" [GoString path; GoInt mode] in ret err
  end.

Definition Fchmod (fd : Z) (mode : Z) : M error :=
  let* (_, err) := fsCall "fchmodSync" [GoInt fd; GoInt mode] in ret err.

Definition Chown (path : string) (uid gid : Z) : M error :=
  match checkPath path with
  | Some err => ret (Some err)
  | None => ret (Some ENOSYS)
  end.

Definition Fchown (fd : Z) (uid gid : Z) : M error := ret (Some ENOSYS).

Definition Lchown (path : string) (uid gid : Z) : M error :=
  match checkPath path with
  | Some err => ret (Some err)
  | None => ret (Some ENOSYS)
  end.

Definition UtimesNano (path : string) (ts : list Timespec) : M error :=
  match checkPath path with
  | Some err => ret (Some err)
  | None =>
    match ts with
    | [ts0; ts1] =>
      let atime := Sec ts0 in
      let mtime := Sec ts1 in
      let* (_, err) :=
        fsCall "utimesSync" [GoString path; GoInt atime; GoInt mtime] in
      ret err
    | _ => ret (Some EINVAL)
    end
  end.

Definition Rename (from to : string) : M error :=
  match checkPath from with
  | Some err => ret (Some err)
  | None =>
    match checkPath to with
    | Some err => ret (Some err)
    | None =>
      let* (_, err) := fsCall "renameSync" [GoString from; GoString to] in
      ret err
    end
  end.

Definition Truncate (path : string) (length : Z) : M error :=
  match checkPath path with
  | Some err => ret (Some err)
  | None =>
    let* (_, err) := fsCall "truncateSync" [GoString path; GoInt length] in
    ret err
  end.

Definition Ftruncate (fd : Z) (length : Z) : M error :=
  let* (_, err) := fsCall "ftruncateSync" [GoInt fd; GoInt length] in ret err.

Definition Getcwd (buf : list byte) : M (list byte * Z * error) :=
  let* (r, err) :=
    recoverErr (buf, 0)
      (let* v := Call jsProcess "cwd" [] in
       let cwd := Value_String v in
       ret (copy buf (bytes cwd), Z.min (Z.of_nat (length buf)) (len cwd))) in
  ret (r.1, r.2, err).

Definition Chdir (path : string) : M error :=
  match checkPath path with
  | Some err => ret (Some err)
  | None =>
    let* (_, err) :=
      recoverErr () (let* _ := Call jsProcess "chdir" [GoString path] in ret ()) in
    ret err
  end.

Definition Fchdir (fd : Z) : M error :=
  let* (f, err) := fdToFile fd in
  match err with
  | Some err => ret (Some err)
  | None => Chdir (path f)
  end.

Definition Readlink (path : string) (buf : list byte) : M (list byte * Z * error) :=
  match checkPath path with
  | Some err => ret (buf, 0, Some err)
  | None =>
    let* (dst, err) := fsCall "readlinkSync" [GoString path] in
    match err with
    | Some err => ret (buf, 0, Some err)
    | None =>
      let d := Value_String dst in
      ret (copy buf (bytes d), Z.min (Z.of_nat (length buf)) (len d), None)
    end
  end.

Definition Link (path link : string) : M error :=
  match checkPath path with
  | Some err => ret (Some err)
  | None =>
    match checkPath link with
    | Some err => ret (Some err)
    | None =>
      let* (_, err) := fsCall "linkSync" [GoString path; GoString link] in
      ret err
    end
  end.

Definition Symlink (path link : string) : M error :=
  match checkPath path with
  | Some err => ret (Some err)
  | None =>
    match checkPath link with
    | Some err => ret (Some err)
    | None =>
      let* (_, err) := fsCall "symlinkSync" [GoString path; GoString link] in
      ret err
    end
  end.

Definition Fsync (fd : Z) : M error :=
  let* (_, err) := fsCall "fsyncSync" [GoInt fd] in ret err.

(** The bytes the host stores into [b] on a read stay on the host's side of
    the boundary; the count is what the entry points compute with. *)
Definition Pread (fd : Z) (b : list byte) (offset : Z) : M (Z * error) :=
  let* (n, err) :=
    fsCall "readSync" [GoInt fd; GoBytes b; GoInt 0;
                       GoInt (Z.of_nat (length b)); GoInt offset] in
  match err with
  | Some err => ret (0, Some err)
  | None => ret (Value_Int n, None)
  end.

Definition Pwrite (fd : Z) (b : list byte) (offset : Z) : M (Z * error) :=
  let* (n, err) :=
    fsCall "writeSync" [GoInt fd; GoBytes b; GoInt 0;
                        GoInt (Z.of_nat (length b)); GoInt offset] in
  match err with
  | Some err => ret (0, Some err)
  | None => ret (Value_Int n, None)
  end.

Definition Read (fd : Z) (b : list byte) : M (Z * error) :=
  let* (f, err) := fdToFile fd in
  match err with
  | Some err => ret (0, Some err)
  | None =>
    if seeked f then
      let* (n, err) := Pread fd b (pos f) in
      let* _ := setFile fd (set_pos (int64 (pos f + int64 n)) f) in
      ret (n, err)
    else
      let* (n, err) :=
        fsCall "readSync" [GoInt fd; GoBytes b; GoInt 0;
                           GoInt (Z.of_nat (length b))] in
      match err with
      | Some err => ret (0, Some err)
      | None =>
        let n2 := Value_Int n in
        let* _ := setFile fd (set_pos (int64 (pos f + int64 n2)) f) in
        ret (n2, err)
      end
  end.

Definition Write (fd : Z) (b : list byte) : M (Z * error) :=
  let* (f, err) := fdToFile fd in
  match err with
  | Some err => ret (0, Some err)
  | None =>
    if seeked f then
      let* (n, err) := Pwrite fd b (pos f) in
      let* _ := setFile fd (set_pos (int64 (pos f + int64 n)) f) in
      ret (n, err)
    else
      let* (n, err) :=
        fsCall "writeSync" [GoInt fd; GoBytes b; GoInt 0;
                            GoInt (Z.of_nat (length b))] in
      match err with
      | Some err => ret (0, Some err)
      | None =>
        let n2 := Value_Int n in
        let* _ := setFile fd (set_pos (int64 (pos f + int64 n2)) f) in
        ret (n2, err)
      end
  end.

Definition zeroStat_t : Stat_t :=
  {| Dev := 0; Ino := 0; Mode := 0; Nlink := 0; Uid := 0; Gid := 0; Rdev := 0;
     Size := 0; Blksize := 0; Blocks := 0; Atime := 0; AtimeNsec := 0;
     Mtime := 0; MtimeNsec := 0; Ctime := 0; CtimeNsec := 0 |}.

Definition Seek (fd : Z) (offset : Z) (whence : Z) : M (Z * error) :=
  let* (f, err) := fdToFile fd in
  match err with
  | Some err => ret (0, Some err)
  | None =>
    let move (newPos : Z) : M (Z * error) :=
      if newPos <? 0 then ret (0, errnoErr EINVAL)
      else
        let* _ := setFile fd (set_pos newPos (set_seeked true f)) in
        ret (newPos, None) in
    if whence =? SeekStart then move offset
    else if whence =? SeekCurrent then move (int64 (pos f + offset))
    else if whence =? SeekEnd then
      let* (st, err) := Fstat fd zeroStat_t in
      match err with
      | Some err => ret (0, Some err)
      | None => move (int64 (Size st + offset))
      end
    else ret (0, errnoErr EINVAL)
  end.

Definition Dup (fd : Z) : M (Z * error) := ret (0, Some ENOSYS).
Definition Dup2 (fd newfd : Z) : M error := ret (Some ENOSYS).
Definition Pipe (fd : list Z) : M error := ret (Some ENOSYS).

End Syscalls.

Arguments State {_}.
Arguments M {_} A.

(** ** Sequences of calls *)

(** A call of an entry point with its arguments. *)
Inductive op :=
| OpOpen (path : string) (openmode perm : Z)
| OpClose (fd : Z)
| OpCloseOnExec (fd : Z)
| OpMkdir (path : string) (perm : Z)
| OpReadDirent (fd : Z) (buf : list byte)
| OpStat (path : string)
| OpLstat (path : string)
| OpFstat (fd : Z)
| OpUnlink (path : string)
| OpRmdir (path : string)
| OpChmod (path : string) (mode : Z)
| OpFchmod (fd : Z) (mode : Z)
| OpChown (path : string) (uid gid : Z)
| OpFchown (fd : Z) (uid gid : Z)
| OpLchown (path : string) (uid gid : Z)
| OpUtimesNano (path : string) (ts : list Timespec)
| OpRename (from to : string)
| OpTruncate (path : string) (length : Z)
| OpFtruncate (fd : Z) (length : Z)
| OpGetcwd (buf : list byte)
| OpChdir (path : string)
| OpFchdir (fd : Z)
| OpReadlink (path : string) (buf : list byte)
| OpLink (path link : string)
| OpSymlink (path link : string)
| OpFsync (fd : Z)
| OpRead (fd : Z) (b : list byte)
| OpWrite (fd : Z) (b : list byte)
| OpPread (fd : Z) (b : list byte) (offset : Z)
| OpPwrite (fd : Z) (b : list byte) (offset : Z)
| OpSeek (fd : Z) (offset whence : Z)
| OpDup (fd : Z)
| OpDup2 (fd newfd : Z)
| OpPipe (fd : list Z).

Section Runs.
Context `{Host}.

Definition void {A} (m : M A) : M unit :=
  bind m (fun _ => ret ()).

Definition exec (o : op) : M unit :=
  match o with
  | OpOpen path openmode perm => void (Open path openmode perm)
  | OpClose fd => void (Close fd)
  | OpCloseOnExec fd => CloseOnExec fd
  | OpMkdir path perm => void (Mkdir path perm)
  | OpReadDirent fd buf => void (ReadDirent fd buf)
  | OpStat path => void (Stat path zeroStat_t)
  | OpLstat path => void (Lstat path zeroStat_t)
  | OpFstat fd => void (Fstat fd zeroStat_t)
  | OpUnlink path => void (Unlink path)
  | OpRmdir path => void (Rmdir path)
  | OpChmod path mode => void (Chmod path mode)
  | OpFchmod fd mode => void (Fchmod fd mode)
  | OpChown path uid gid => void (Chown path uid gid)
  | OpFchown fd uid gid => void (Fchown fd uid gid)
  | OpLchown path uid gid => void (Lchown path uid gid)
  | OpUtimesNano path ts => void (UtimesNano path ts)
  | OpRename from to => void (Rename from to)
  | OpTruncate path length => void (Truncate path length)
  | OpFtruncate fd length => void (Ftruncate fd length)
  | OpGetcwd buf => void (Getcwd buf)
  | OpChdir path => void (Chdir path)
  | OpFchdir fd => void (Fchdir fd)
  | OpReadlink path buf => void (Readlink path buf)
  | OpLink path link => void (Link path link)
  | OpSymlink path link => void (Symlink path link)
  | OpFsync fd => void (Fsync fd)
  | OpRead fd b => void (Read fd b)
  | OpWrite fd b => void (Write fd b)
  | OpPread fd b offset => void (Pread fd b offset)
  | OpPwrite fd b offset => void (Pwrite fd b offset)
  | OpSeek fd offset whence => void (Seek fd offset whence)
  | OpDup fd => void (Dup fd)
  | OpDup2 fd newfd => void (Dup2 fd newfd)
  | OpPipe fd => void (Pipe fd)
  end.

(** The state a sequence of calls leaves; a panic ends the process where it
    stands. *)
Fixpoint run (ops : list op) (s : State) : State :=
  match ops with
  | [] => s
  | o :: rest =>
      match exec o s with
      | (Done _, s') => run rest s'
      | (Panicked _, s') => s'
      end
  end.

(** A computation that never takes descriptor [k] out of the table. *)
Definition keeps {A} (k : Z) (m : M A) : Prop :=
  forall s, is_Some (files s !! k) -> is_Some (files (m s).2 !! k).

(** The state at process start, on a host in state [w]. *)
Definition start (w : World) : State :=
  {| files := files0; world := w; calls := [] |}.

End Runs.

(** ** The directory-entry wire format *)

(** The record [ReadDirent] stores for an entry, and its length. *)
Definition reclen (name : string) : Z := 2 + len name.

Definition dirent (name : string) : list byte :=
  byte_of_Z (reclen name) :: byte_of_Z (Z.shiftr (reclen name) 8) :: bytes name.

Definition total (q : list string) : Z := foldr (fun e acc => reclen e + acc) 0 q.

Arguments reclen : simpl never.
Arguments dirent : simpl never.

(** ** A host that plays back a script

    Each call takes the next outcome of the script, whatever the call; a
    finished script answers [undefined].  The constants are node's and the
    package's; [errnoByCode] knows two codes. *)
Definition scripted : Host :=
  {| World := list jsOutcome;
     jsCall := fun _ _ _ w =>
       match w with
       | [] => (Returns jsUndefined, [])
       | o :: w' => (o, w')
       end;
     errnoByCode := fun code =>
       if String.eqb code "ENOENT" then Some 2
       else if String.eqb code "EIO" then Some 5
       else None;
     O_WRONLY := 1; O_RDWR := 2; O_CREATE := 64; O_TRUNC := 512;
     O_APPEND := 1024; O_EXCL := 128; O_NONBLOCK := 2048; O_SYNC := 4096;
     nodeWRONLY := 1; nodeRDWR := 2; nodeCREATE := 64; nodeTRUNC := 512;
     nodeAPPEND := 1024; nodeEXCL := 128; nodeNONBLOCK := 2048;
     nodeSYNC := 1052672 |}.

(** A name of 65534 bytes, whose record is 65536 bytes long. *)
Definition longName : string :=
  N.iter 65534
    (String.String (Ascii.Ascii true false false false false true true false))
    String.EmptyString.

(** The metadata of a directory, and of an empty regular file. *)
Definition dirStats : jsStats :=
  {| isDirectory := true; dev := 0; ino := 0; mode := 0; nlink := 0;
     uid := 0; gid := 0; rdev := 0; size := 0; blksize := 0; blocks := 0;
     atimeMs := 1500; mtimeMs := 1500; ctimeMs := 1500 |}.

(** A table with one more descriptor, 3, opened on a directory whose pending
    entries are [q]. *)
Definition withDir (q : list string) (w : list jsOutcome) : @State scripted :=
  @Build_State scripted
    (<[3 := {| path := "d"; entries := Some q; pos := 0; seeked := false |}]>
       files0)
    w [].

(** ** Predicates on entry points and records *)

(** The descriptor whose table entry a call can change, for the calls other
    than [Open] (which changes the entry of the descriptor the host hands
    out). *)
Definition target (o : op) : option Z :=
  match o with
  | OpClose fd | OpReadDirent fd _ | OpRead fd _ | OpWrite fd _
  | OpSeek fd _ _ => Some fd
  | _ => None
  end.

Definition isOpen (o : op) : bool :=
  match o with OpOpen _ _ _ => true | _ => false end.

(** What can happen to the record of a descriptor between its registration
    and its removal: the path stays, a positioned descriptor stays
    positioned, an absent queue stays absent and a queue loses entries at
    its front only. *)
Definition evolves (f f' : jsFile) : Prop :=
  path f' = path f /\
  (seeked f = true -> seeked f' = true) /\
  match entries f with
  | None => entries f' = None
  | Some q => exists k : nat, entries f' = Some (drop k q)
  end.

(** The host array of the names [names]. *)
Definition jsNames (names : list string) : jsValue :=
  jsArray (jsString <$> names).

Section Predicates.
Context `{Host}.

(** A computation whose outcome does not depend on the table and that hands
    the table back as it got it. *)
Definition blind {A} (m : M A) : Prop :=
  forall (tbl : gmap Z jsFile) (s : State),
    m (withFiles tbl s) = ((m s).1, withFiles tbl (m s).2).

(** A panic value that [recoverErr] turns into an error result. *)
Definition translatable (p : panicValue) : Prop :=
  exists code errno, p = JsError code /\ errnoByCode code = Some errno.

(** A host all of whose exceptions carry a code of [errnoByCode]. *)
Definition polite : Prop :=
  forall recv name args w p w',
    jsCall recv name args w = (Throws p, w') -> translatable p.

(** A panic value that some host call throws. *)
Definition thrown (p : panicValue) : Prop :=
  exists recv name args w w', jsCall recv name args w = (Throws p, w').

(** A computation whose panics are exceptions of the host, and one whose
    panics are exceptions of the host that [recoverErr] does not translate. *)
Definition fromHost {A} (m : M A) : Prop :=
  forall s p s', m s = (Panicked p, s') -> thrown p.

Definition wild {A} (m : M A) : Prop :=
  forall s p s', m s = (Panicked p, s') -> thrown p /\ ~ translatable p.

(** A computation whose panics are exceptions of the host that [recoverErr]
    does not translate, or exceptions of an [isDirectory] method call, which
    is then the last host call made. *)
Definition wildButMethod {A} (m : M A) : Prop :=
  forall s p s', m s = (Panicked p, s') ->
    thrown p /\
    (translatable p ->
     exists v, last (calls s') = Some (jsThis v, "isDirectory", [])).

(** A computation that leaves the table entry of [k] as it is. *)
Definition same {A} (k : Z) (m : M A) : Prop :=
  forall s, files (m s).2 !! k = files s !! k.

(** A computation that makes at most [n] host calls, appended to the log. *)
Definition atMost {A} (n : nat) (m : M A) : Prop :=
  forall s, exists l, calls (m s).2 = calls s ++ l /\ (length l <= n)%nat.

End Predicates.

(** The number of host calls an entry point can make. *)
Definition maxCalls (o : op) : nat :=
  match o with
  | OpOpen _ _ _ => 4
  | OpCloseOnExec _ | OpReadDirent _ _ | OpChown _ _ _ | OpFchown _ _ _
  | OpLchown _ _ _ | OpDup _ | OpDup2 _ _ | OpPipe _ => 0
  | _ => 1
  end.

(** ** A host that refuses every call

    Every call throws an error with the code ENOENT, which [errnoByCode]
    knows. *)
Definition refusing : Host :=
  {| World := unit;
     jsCall := fun _ _ _ w => (Throws (JsError "ENOENT"), w);
     errnoByCode := fun code =>
       if String.eqb code "ENOENT" then Some 2 else None;
     O_WRONLY := 1; O_RDWR := 2; O_CREATE := 64; O_TRUNC := 512;
     O_APPEND := 1024; O_EXCL := 128; O_NONBLOCK := 2048; O_SYNC := 4096;
     nodeWRONLY := 1; nodeRDWR := 2; nodeCREATE := 64; nodeTRUNC := 512;
     nodeAPPEND := 1024; nodeEXCL := 128; nodeNONBLOCK := 2048;
     nodeSYNC := 1052672 |}.

(** The metadata of a regular file of [sz] bytes. *)
Definition fileStats (sz : Z) : jsStats :=
  {| isDirectory := false; dev := 0; ino := 0; mode := 0; nlink := 1;
     uid := 0; gid := 0; rdev := 0; size := sz; blksize := 0; blocks := 0;
     atimeMs := 0; mtimeMs := 0; ctimeMs := 0 |}.

(** * Properties *)

(** ** Integers, bytes and strings *)

Lemma int64_id z : - 2 ^ 63 <= z < 2 ^ 63 -> int64 z = z.
Proof.
  intros Hz. unfold int64.
  rewrite Z.mod_small by lia. lia.
Qed.

Lemma int64_range z : - 2 ^ 63 <= int64 z < 2 ^ 63.
Proof.
  unfold int64. pose proof (Z.mod_pos_bound (z + 2 ^ 63) (2 ^ 64)). lia.
Qed.

Lemma quot_rem_1000 x :
  - 2 ^ 63 <= x < 2 ^ 63 ->
  - 2 ^ 63 <= Z.quot x 1000 < 2 ^ 63 /\ - 1000 < Z.rem x 1000 < 1000.
Proof.
  intros Hx. pose proof (Z.quot_rem' x 1000) as Hqr.
  destruct (Z.le_gt_cases 0 x) as [Hpos|Hneg].
  - pose proof (Z.rem_bound_pos x 1000 Hpos). lia.
  - pose proof (Z.rem_bound_pos_neg x 1000). lia.
Qed.

(** The conversion of [setStat] on a value that is already an [int64]. *)
Lemma ms_split x :
  - 2 ^ 63 <= x < 2 ^ 63 ->
  int64 (Z.quot x 1000) = Z.quot x 1000 /\
  int64 (Z.rem x 1000 * 1000000) = Z.rem x 1000 * 1000000.
Proof.
  intros Hx. destruct (quot_rem_1000 x Hx) as [Hq Hr].
  split; apply int64_id; lia.
Qed.

Lemma Z_of_byte_of_Z z : Z_of_byte (byte_of_Z z) = z mod 256.
Proof.
  unfold Z_of_byte, byte_of_Z.
  assert (Hr : 0 <= z mod 256 < 256) by (apply Z.mod_pos_bound; lia).
  destruct (Byte.of_N (Z.to_N (z mod 256))) as [b|] eqn:Hb.
  - simpl. apply Byte.to_of_N in Hb. rewrite Hb. lia.
  - apply Byte.of_N_None_iff in Hb. lia.
Qed.

Lemma le16_prefix l :
  le16 (byte_of_Z l) (byte_of_Z (Z.shiftr l 8)) = l mod 65536.
Proof.
  unfold le16. rewrite !Z_of_byte_of_Z, Z.shiftr_div_pow2 by lia.
  change (2 ^ 8) with 256.
  change 65536 with (256 * 256).
  rewrite (Z.rem_mul_r l 256 256) by lia. lia.
Qed.

Lemma length_bytes s : length (bytes s) = String.length s.
Proof.
  unfold bytes, String.list_byte_of_string.
  rewrite length_map. induction s as [|c s IH]; simpl; [done | by rewrite IH].
Qed.

Lemma reclen_ge name : 2 <= reclen name.
Proof. unfold reclen, len. lia. Qed.

Lemma length_dirent name : Z.of_nat (length (dirent name)) = reclen name.
Proof. unfold dirent, reclen, len. cbn [length]. rewrite length_bytes. lia. Qed.

(** ** The loop of [ReadDirent] *)

Lemma total_nonneg q : 0 <= total q.
Proof.
  induction q as [|e q IH]; simpl; [lia|]. pose proof (reclen_ge e). lia.
Qed.

Lemma length_records q :
  Z.of_nat (length (concat (dirent <$> q))) = total q.
Proof.
  induction q as [|e q IH]; [done|].
  rewrite fmap_cons. cbn [concat].
  change (total (e :: q)) with (reclen e + total q).
  rewrite length_app, Nat2Z.inj_add, IH, length_dirent. done.
Qed.

(** One turn of the loop body on a window that has room for the record: the
    record is stored at the front and the rest of the window is untouched. *)
Lemma store_record (e : string) (buf : list byte) :
  reclen e <= Z.of_nat (length buf) ->
  let l := 2 + len e in
  let buf1 := <[0%nat := byte_of_Z l]> buf in
  let buf2 := <[1%nat := byte_of_Z (Z.shiftr l 8)]> buf1 in
  take 2 buf2 ++ copy (drop 2 buf2) (bytes e)
  = dirent e ++ drop (Z.to_nat l) buf.
Proof.
  unfold reclen, len. intros Hfit.
  destruct buf as [|b0 [|b1 buf]]; simpl in Hfit; try lia.
  cbn zeta. unfold dirent, copy, reclen, len. simpl.
  do 2 f_equal. rewrite !drop_0.
  rewrite take_ge by (rewrite length_bytes; lia).
  f_equal. rewrite length_bytes.
  replace (Z.to_nat (2 + Z.of_nat (String.length e)))
    with (S (S (String.length e))) by lia.
  done.
Qed.

Lemma direntLoop_spec (q : list string) : forall (buf : list byte) (n0 : Z),
  exists k : nat,
    (k <= length q)%nat /\
    total (take k q) <= Z.of_nat (length buf) /\
    (forall e, q !! k = Some e ->
       total (take k q) + reclen e > Z.of_nat (length buf)) /\
    direntLoop q buf n0
    = (drop k q,
       concat (dirent <$> take k q) ++ drop (Z.to_nat (total (take k q))) buf,
       n0 + total (take k q)).
Proof.
  induction q as [|e q IH]; intros buf n0.
  - exists 0%nat. simpl. repeat split; try lia; [done|].
    by rewrite Z.add_0_r.
  - simpl. fold (reclen e).
    destruct (Z.gtb_spec (reclen e) (Z.of_nat (length buf))) as [Hbig|Hfit].
    + exists 0%nat. simpl. repeat split; try lia.
      * intros e' [= <-]. lia.
      * by rewrite Z.add_0_r.
    + pose proof (store_record e buf Hfit) as Hst. cbn zeta in Hst.
      unfold reclen in *. rewrite Hst.
      assert (Hlen : length (dirent e) = Z.to_nat (2 + len e)).
      { pose proof (length_dirent e). unfold reclen in *. lia. }
      rewrite drop_app_length', take_app_length' by done.
      destruct (IH (drop (Z.to_nat (2 + len e)) buf) (n0 + (2 + len e)))
        as (k & Hk & Hle & Hstop & ->).
      rewrite length_drop in Hle, Hstop.
      pose proof (total_nonneg (take k q)) as Hnn.
      assert (Hl : 0 <= len e) by (unfold len; lia).
      exists (S k).
      change (take (S k) (e :: q)) with (e :: take k q).
      change (drop (S k) (e :: q)) with (drop k q).
      change (total (e :: take k q)) with (reclen e + total (take k q)).
      rewrite fmap_cons. cbn [concat length]. unfold reclen.
      repeat split; try lia.
      * intros e' He'. specialize (Hstop e' He'). unfold reclen in *. lia.
      * f_equal; [f_equal|lia].
        rewrite <- app_assoc. f_equal. rewrite drop_drop.
        by rewrite <- Z2Nat.inj_add by lia.
Qed.

(** The count never goes down. *)
Lemma direntLoop_count q : forall buf n0, n0 <= (direntLoop q buf n0).2.
Proof.
  intros buf n0. destruct (direntLoop_spec q buf n0) as (k & _ & _ & _ & ->).
  simpl. pose proof (total_nonneg (take k q)). lia.
Qed.

(** ** The wrapper [fsCall] *)

Section Properties.
Context `{Host}.

Lemma fsCall_eq name args s :
  fsCall name args s =
  match jsCall jsFS name args (world s) with
  | (Returns v, w) => (Done (v, None), afterCall s w (jsFS, name, args))
  | (Throws (JsError code), w) =>
      match errnoByCode code with
      | Some errno =>
          (Done (jsUndefined, Some errno), afterCall s w (jsFS, name, args))
      | None => (Panicked (JsError code), afterCall s w (jsFS, name, args))
      end
  | (Throws OtherPanic, w) =>
      (Panicked OtherPanic, afterCall s w (jsFS, name, args))
  end.
Proof.
  unfold fsCall, recoverErr, Call.
  by destruct (jsCall jsFS name args (world s)) as [[v|[code|]] w].
Qed.

Lemma fsCall_returns name args s v w :
  jsCall jsFS name args (world s) = (Returns v, w) ->
  fsCall name args s = (Done (v, None), afterCall s w (jsFS, name, args)).
Proof. intros Hc. by rewrite fsCall_eq, Hc. Qed.

Lemma fsCall_files name args s : files (fsCall name args s).2 = files s.
Proof.
  rewrite fsCall_eq.
  destruct (jsCall jsFS name args (world s)) as [[v|[code|]] w]; try done.
  by destruct (errnoByCode code).
Qed.

Lemma fsCall_calls name args s :
  calls (fsCall name args s).2 = calls s ++ [(jsFS, name, args)].
Proof.
  rewrite fsCall_eq.
  destruct (jsCall jsFS name args (world s)) as [[v|[code|]] w]; try done.
  by destruct (errnoByCode code).
Qed.

Lemma Call_files recv name args s :
  files (Call recv name args s).2 = files s.
Proof.
  unfold Call. by destruct (jsCall recv name args (world s)) as [[v|p] w].
Qed.

Lemma fdToFile_Some fd f s :
  files s !! fd = Some f -> fdToFile fd s = (Done (f, None), s).
Proof. intros Hf. unfold fdToFile. by rewrite Hf. Qed.

Lemma fdToFile_None fd s :
  files s !! fd = None -> fdToFile fd s = (Done (zeroFile, Some EBADF), s).
Proof. intros Hf. unfold fdToFile. by rewrite Hf. Qed.

Lemma withFiles_id s : withFiles (files s) s = s.
Proof. by destruct s. Qed.

(** ** Descriptors that are not in the table *)

Lemma Read_unknown fd b s :
  files s !! fd = None -> Read fd b s = (Done (0, Some EBADF), s).
Proof. intros Hf. unfold Read, bind. by rewrite (fdToFile_None _ _ Hf). Qed.

Lemma Write_unknown fd b s :
  files s !! fd = None -> Write fd b s = (Done (0, Some EBADF), s).
Proof. intros Hf. unfold Write, bind. by rewrite (fdToFile_None _ _ Hf). Qed.

Lemma Seek_unknown fd offset whence s :
  files s !! fd = None -> Seek fd offset whence s = (Done (0, Some EBADF), s).
Proof. intros Hf. unfold Seek, bind. by rewrite (fdToFile_None _ _ Hf). Qed.

Lemma ReadDirent_unknown fd buf s :
  files s !! fd = None ->
  ReadDirent fd buf s = (Done (buf, 0, Some EBADF), s).
Proof. intros Hf. unfold ReadDirent, bind. by rewrite (fdToFile_None _ _ Hf). Qed.

Lemma Fchdir_unknown fd s :
  files s !! fd = None -> Fchdir fd s = (Done (Some EBADF), s).
Proof. intros Hf. unfold Fchdir, bind. by rewrite (fdToFile_None _ _ Hf). Qed.

(** ** Close *)

Lemma Close_eq fd s :
  Close fd s =
  match fsCall "closeSync" [GoInt fd] (withFiles (delete fd (files s)) s) with
  | (Done (_, err), s') => (Done err, s')
  | (Panicked p, s') => (Panicked p, s')
  end.
Proof.
  unfold Close, bind, deleteFile, ret.
  by destruct (fsCall _ _ _) as [[[v err]|p] s'].
Qed.

Lemma Close_removes_entry_aux fd s :
  files (Close fd s).2 = delete fd (files s) /\
  calls (Close fd s).2 = calls s ++ [(jsFS, "closeSync", [GoInt fd])].
Proof.
  rewrite Close_eq.
  pose proof (fsCall_files "closeSync" [GoInt fd]
                (withFiles (delete fd (files s)) s)) as Hf.
  pose proof (fsCall_calls "closeSync" [GoInt fd]
                (withFiles (delete fd (files s)) s)) as Hc.
  by destruct (fsCall _ _ _) as [[[v err]|p] s'].
Qed.

(** C2.  [Close] takes the record out of the table and then calls the host's
    [closeSync]; the record is gone whatever that call does (a value, a
    translated error, or a panic that goes on), the error returned is the
    host's, and every entry point that looks the descriptor up in the table
    ([Read], [Write], [Seek], [ReadDirent], [Fchdir]) then fails with [EBADF]
    without reaching the host. *)
Theorem Close_removes_then_EBADF (fd : Z) (s : State) :
  let r := Close fd s in
  files r.2 = delete fd (files s) /\
  calls r.2 = calls s ++ [(jsFS, "closeSync", [GoInt fd])] /\
  match (jsCall jsFS "closeSync" [GoInt fd] (world s)).1 with
  | Returns _ => r.1 = Done None
  | Throws (JsError code) =>
      match errnoByCode code with
      | Some errno => r.1 = Done (Some errno)
      | None => r.1 = Panicked (JsError code)
      end
  | Throws OtherPanic => r.1 = Panicked OtherPanic
  end /\
  (forall b, Read fd b r.2 = (Done (0, Some EBADF), r.2)) /\
  (forall b, Write fd b r.2 = (Done (0, Some EBADF), r.2)) /\
  (forall offset whence,
     Seek fd offset whence r.2 = (Done (0, Some EBADF), r.2)) /\
  (forall buf, ReadDirent fd buf r.2 = (Done (buf, 0, Some EBADF), r.2)) /\
  Fchdir fd r.2 = (Done (Some EBADF), r.2).
Proof.
  intros r.
  destruct (Close_removes_entry_aux fd s) as [Hfiles Hcalls].
  assert (Hgone : files r.2 !! fd = None)
    by (subst r; rewrite Hfiles; apply lookup_delete_eq).
  split; [done|]. split; [done|]. split.
  - subst r. rewrite Close_eq, fsCall_eq. simpl.
    destruct (jsCall jsFS "closeSync" [GoInt fd] (world s))
      as [[v|[code|]] w]; simpl; try done.
    by destruct (errnoByCode code).
  - repeat split; intros.
    + by apply Read_unknown.
    + by apply Write_unknown.
    + by apply Seek_unknown.
    + by apply ReadDirent_unknown.
    + by apply Fchdir_unknown.
Qed.

(** ** Seek and the tracked position *)

Lemma Seek_start fd offset s f :
  files s !! fd = Some f -> 0 <= offset ->
  Seek fd offset SeekStart s
  = (Done (offset, None),
     withFiles (<[fd := set_pos offset (set_seeked true f)]> (files s)) s).
Proof.
  intros Hf Hoff. unfold Seek, bind. rewrite (fdToFile_Some _ _ _ Hf). simpl.
  by destruct (Z.ltb_spec offset 0); [lia|].
Qed.

Lemma Seek_current fd offset s f :
  files s !! fd = Some f -> 0 <= int64 (pos f + offset) ->
  Seek fd offset SeekCurrent s
  = (Done (int64 (pos f + offset), None),
     withFiles (<[fd := set_pos (int64 (pos f + offset)) (set_seeked true f)]>
                  (files s)) s).
Proof.
  intros Hf Hoff. unfold Seek, bind. rewrite (fdToFile_Some _ _ _ Hf). simpl.
  by destruct (Z.ltb_spec (int64 (pos f + offset)) 0); [lia|].
Qed.

Lemma Write_seeked fd b s f v w :
  files s !! fd = Some f -> seeked f = true ->
  jsCall jsFS "writeSync"
    [GoInt fd; GoBytes b; GoInt 0; GoInt (Z.of_nat (length b)); GoInt (pos f)]
    (world s) = (Returns v, w) ->
  Write fd b s
  = (Done (Value_Int v, None),
     withFiles (<[fd := set_pos (int64 (pos f + int64 (Value_Int v))) f]>
                  (files s))
       (afterCall s w
          (jsFS, "writeSync",
           [GoInt fd; GoBytes b; GoInt 0; GoInt (Z.of_nat (length b));
            GoInt (pos f)]))).
Proof.
  intros Hf Hsk Hcall. unfold Write, bind.
  rewrite (fdToFile_Some _ _ _ Hf), Hsk. unfold Pwrite, bind.
  by rewrite (fsCall_returns _ _ _ _ _ Hcall).
Qed.

(** C1.  On a descriptor of the table, [Seek(fd, 10, start)], then a
    [Write(fd, b)] for which the host reports all [len(b)] bytes written,
    then [Seek(fd, 0, current)] yields [10 + len(b)] (the length of a slice
    leaves room for the sum in an [int64]).  In general a seek relative to
    "current" is computed from the tracked [pos] and makes no host call, and
    a write on a descriptor that has been positioned is sent to the host at
    the tracked [pos] and moves [pos] on by the count the host reports. *)
Theorem seek_write_seek_current (fd : Z) :
  (forall (b : list byte) (s : State) (f : jsFile) (v : jsValue) (w : World),
     let N := Z.of_nat (length b) in
     files s !! fd = Some f ->
     jsCall jsFS "writeSync"
       [GoInt fd; GoBytes b; GoInt 0; GoInt N; GoInt 10] (world s)
       = (Returns v, w) ->
     Value_Int v = N ->
     10 + N < 2 ^ 63 ->
     exists s1 s2 s3,
       Seek fd 10 SeekStart s = (Done (10, None), s1) /\
       Write fd b s1 = (Done (N, None), s2) /\
       Seek fd 0 SeekCurrent s2 = (Done (10 + N, None), s3)) /\
  (forall (offset : Z) (s : State) (f : jsFile),
     files s !! fd = Some f ->
     0 <= int64 (pos f + offset) ->
     exists s',
       Seek fd offset SeekCurrent s = (Done (int64 (pos f + offset), None), s') /\
       world s' = world s /\ calls s' = calls s) /\
  (forall (b : list byte) (s : State) (f : jsFile) (v : jsValue) (w : World),
     files s !! fd = Some f ->
     seeked f = true ->
     jsCall jsFS "writeSync"
       [GoInt fd; GoBytes b; GoInt 0; GoInt (Z.of_nat (length b));
        GoInt (pos f)] (world s) = (Returns v, w) ->
     exists s',
       Write fd b s = (Done (Value_Int v, None), s') /\
       files s' !! fd
       = Some (set_pos (int64 (pos f + int64 (Value_Int v))) f)).
Proof.
  split; [|split].
  - intros b s f v w N Hf Hcall Hv HN.
    assert (E1 : int64 N = N) by (apply int64_id; lia).
    assert (E2 : int64 (10 + N) = 10 + N) by (apply int64_id; lia).
    eexists _, _, _. split; [by apply (Seek_start _ _ _ f)|].
    split.
    + erewrite Write_seeked; [| by apply lookup_insert_eq | done | exact Hcall].
      by rewrite Hv.
    + erewrite Seek_current; [| by apply lookup_insert_eq | ]; simpl;
        rewrite ?Hv, ?E1, ?E2, ?Z.add_0_r, ?E2; [done | lia].
  - intros offset s f Hf Hpos. eexists. split; [by apply Seek_current|done].
  - intros b s f v w Hf Hsk Hcall. eexists.
    split; [by apply Write_seeked|]. apply lookup_insert_eq.
Qed.

(** C7, as the code has it.  On a descriptor of the table, a [whence] other
    than start, current and end, and a negative position computed from start
    or from current (the tracked [pos]), are refused with [EINVAL] without
    any host call and without touching the record.  A negative position
    computed from the end is refused with [EINVAL] and leaves the record as
    it was as well, but only after the host's [fstatSync] has been called to
    learn the size. *)
Theorem Seek_rejects (fd : Z) (offset : Z) (s : State) (f : jsFile) :
  files s !! fd = Some f ->
  (forall whence,
     whence <> SeekStart -> whence <> SeekCurrent -> whence <> SeekEnd ->
     Seek fd offset whence s = (Done (0, Some EINVAL), s)) /\
  (offset < 0 -> Seek fd offset SeekStart s = (Done (0, Some EINVAL), s)) /\
  (int64 (pos f + offset) < 0 ->
   Seek fd offset SeekCurrent s = (Done (0, Some EINVAL), s)) /\
  (forall v w,
     jsCall jsFS "fstatSync" [GoInt fd] (world s) = (Returns v, w) ->
     int64 (Size (setStat (Value_Stats v)) + offset) < 0 ->
     Seek fd offset SeekEnd s
     = (Done (0, Some EINVAL), afterCall s w (jsFS, "fstatSync", [GoInt fd]))).
Proof.
  intros Hf. repeat split.
  - intros whence H0 H1 H2. unfold Seek, bind.
    rewrite (fdToFile_Some _ _ _ Hf).
    destruct (Z.eqb_spec whence SeekStart); [done|].
    destruct (Z.eqb_spec whence SeekCurrent); [done|].
    by destruct (Z.eqb_spec whence SeekEnd).
  - intros Hneg. unfold Seek, bind. rewrite (fdToFile_Some _ _ _ Hf). simpl.
    by destruct (Z.ltb_spec offset 0); [|lia].
  - intros Hneg. unfold Seek, bind. rewrite (fdToFile_Some _ _ _ Hf). simpl.
    by destruct (Z.ltb_spec (int64 (pos f + offset)) 0); [|lia].
  - intros v w Hcall Hneg. unfold Seek, bind.
    rewrite (fdToFile_Some _ _ _ Hf). simpl.
    unfold Fstat, bind. rewrite (fsCall_returns _ _ _ _ _ Hcall). simpl.
    by destruct (Z.ltb_spec (int64 (int64 (size (Value_Stats v)) + offset)) 0);
      [|simpl in Hneg; lia].
Qed.

(** ** ReadDirent *)

Lemma ReadDirent_eq fd buf s f q :
  files s !! fd = Some f -> entries f = Some q ->
  ReadDirent fd buf s
  = (Done ((direntLoop q buf 0).1.2, (direntLoop q buf 0).2, None),
     withFiles (<[fd := set_entries (Some (direntLoop q buf 0).1.1) f]>
                  (files s)) s).
Proof.
  intros Hf Hq. unfold ReadDirent, bind.
  rewrite (fdToFile_Some _ _ _ Hf), Hq.
  by destruct (direntLoop q buf 0) as [[es' buf'] n].
Qed.

(** The two bytes in front of a record are its length modulo 65536, low byte
    first: the whole length for every name shorter than 65534 bytes. *)
Lemma dirent_prefix name :
  exists b0 b1,
    dirent name = b0 :: b1 :: bytes name /\
    le16 b0 b1 = reclen name mod 65536 /\
    (len name < 65534 -> le16 b0 b1 = reclen name).
Proof.
  eexists _, _. split; [reflexivity|]. rewrite le16_prefix.
  split; [done|]. intros Hshort. apply Z.mod_small.
  unfold reclen, len in *. lia.
Qed.

(** C3, as the code has it.  On a descriptor without a queue [ReadDirent]
    fails with [EINVAL].  On a descriptor with the queue [q] it stores the
    records of the first [k] entries of [q], in order and back to back, at
    the front of the buffer and leaves the rest of the buffer alone; [k] is
    where the loop stops: these records fit, and the record of the next
    entry, if there is one, is longer than the room left.  The queue becomes
    [q] without its first [k] entries and the result is the number of bytes
    stored.  A record is two length bytes and then the bytes of the name;
    the length bytes hold the length of the record, header included, modulo
    65536 in little-endian order, which is the length itself for names
    shorter than 65534 bytes. *)
Theorem ReadDirent_records (fd : Z) (buf : list byte) (s : State) (f : jsFile) :
  files s !! fd = Some f ->
  (entries f = None -> ReadDirent fd buf s = (Done (buf, 0, Some EINVAL), s)) /\
  (forall q, entries f = Some q ->
     exists k : nat,
       let written := take k q in
       let n := total written in
       (k <= length q)%nat /\
       n <= Z.of_nat (length buf) /\
       (forall e, q !! k = Some e -> reclen e > Z.of_nat (length buf) - n) /\
       Z.of_nat (length (concat (dirent <$> written))) = n /\
       ReadDirent fd buf s
       = (Done (concat (dirent <$> written) ++ drop (Z.to_nat n) buf, n, None),
          withFiles (<[fd := set_entries (Some (drop k q)) f]> (files s)) s)) /\
  (forall name,
     exists b0 b1,
       dirent name = b0 :: b1 :: bytes name /\
       le16 b0 b1 = reclen name mod 65536 /\
       (len name < 65534 -> le16 b0 b1 = reclen name)).
Proof.
  intros Hf. split; [|split].
  - intros Hnil. unfold ReadDirent, bind.
    by rewrite (fdToFile_Some _ _ _ Hf), Hnil.
  - intros q Hq.
    destruct (direntLoop_spec q buf 0) as (k & Hk & Hle & Hstop & Hloop).
    exists k. cbn zeta. repeat split; try done.
    + intros e He. specialize (Hstop e He). lia.
    + apply length_records.
    + rewrite (ReadDirent_eq _ _ _ _ _ Hf Hq), Hloop. by rewrite Z.add_0_l.
  - apply dirent_prefix.
Qed.

(** C5, as the code has it.  On a descriptor with a queue [ReadDirent] always
    returns without an error, and the count is zero exactly when the queue is
    empty or the record of its first entry is longer than the buffer. *)
Theorem ReadDirent_zero (fd : Z) (buf : list byte) (s : State) (f : jsFile)
    (q : list string) :
  files s !! fd = Some f ->
  entries f = Some q ->
  exists buf' n s',
    ReadDirent fd buf s = (Done (buf', n, None), s') /\
    (n = 0 <->
     q = [] \/ exists e rest, q = e :: rest /\ reclen e > Z.of_nat (length buf)).
Proof.
  intros Hf Hq.
  exists (direntLoop q buf 0).1.2, (direntLoop q buf 0).2,
    (withFiles (<[fd := set_entries (Some (direntLoop q buf 0).1.1) f]>
                  (files s)) s).
  split; [exact (ReadDirent_eq _ _ _ _ _ Hf Hq)|].
  destruct q as [|e rest]; simpl.
  - split; [by left | done].
  - fold (reclen e).
    destruct (Z.gtb_spec (reclen e) (Z.of_nat (length buf))) as [Hbig|Hfit].
    + simpl. split; [|done]. intros _. right. exists e, rest. split; [done|lia].
    + pose proof (reclen_ge e) as Hge.
      match goal with
      | |- context [direntLoop rest ?b ?m] =>
          pose proof (direntLoop_count rest b m) as Hcount;
          destruct (direntLoop rest b m) as [[es' buf'] n']
      end.
      simpl in *. split.
      * intros ->. lia.
      * intros [[=] | (e' & rest' & [= <- <-] & Hbig)]. lia.
Qed.

(** ** Ownership changes *)

Lemma checkPath_invalid path :
  path = "" \/ hasNul path = true -> checkPath path = Some EINVAL.
Proof.
  unfold checkPath. intros [-> | Hnul]; [done|].
  rewrite Hnul. by destruct (String.eqb path "").
Qed.

Lemma checkPath_valid path :
  path <> "" -> hasNul path = false -> checkPath path = None.
Proof.
  unfold checkPath. intros Hne Hnul. rewrite Hnul.
  by destruct (String.eqb_spec path "").
Qed.

(** C6, as the code has it.  [Fchown] fails with [ENOSYS] whatever its
    arguments.  [Chown] and [Lchown] check the path first: on a path that is
    not empty and holds no NUL byte they fail with [ENOSYS] whatever the
    owner and group, and on an empty path or one with a NUL byte they fail
    with [EINVAL].  None of the three reaches the host or the table. *)
Theorem chown_family (uid gid : Z) (s : State) :
  (forall fd, Fchown fd uid gid s = (Done (Some ENOSYS), s)) /\
  (forall path, path <> "" -> hasNul path = false ->
     Chown path uid gid s = (Done (Some ENOSYS), s) /\
     Lchown path uid gid s = (Done (Some ENOSYS), s)) /\
  (forall path, path = "" \/ hasNul path = true ->
     Chown path uid gid s = (Done (Some EINVAL), s) /\
     Lchown path uid gid s = (Done (Some EINVAL), s)).
Proof.
  split; [done|]. split.
  - intros path Hne Hnul. unfold Chown, Lchown.
    by rewrite (checkPath_valid _ Hne Hnul).
  - intros path Hbad. unfold Chown, Lchown.
    by rewrite (checkPath_invalid _ Hbad).
Qed.

(** ** Metadata *)

(** C8.  [setStat] splits each of the three millisecond timestamps of the
    host (read as an [int64]) into the quotient by 1000 and the remainder
    times 1000000, with Go's integer division and remainder; for a timestamp
    that is not negative these are [ms / 1000] and [(ms mod 1000) * 1000000],
    and 1500 gives 1 second and 500000000 nanoseconds. *)
Theorem setStat_timestamps :
  let conv (ms : Z) := (Z.quot ms 1000, Z.rem ms 1000 * 1000000) in
  (forall jsSt : jsStats,
     let st := setStat jsSt in
     (Atime st, AtimeNsec st) = conv (int64 (atimeMs jsSt)) /\
     (Mtime st, MtimeNsec st) = conv (int64 (mtimeMs jsSt)) /\
     (Ctime st, CtimeNsec st) = conv (int64 (ctimeMs jsSt))) /\
  (forall ms, - 2 ^ 63 <= ms < 2 ^ 63 -> int64 ms = ms) /\
  (forall ms, 0 <= ms ->
     conv ms = (ms / 1000, (ms mod 1000) * 1000000)) /\
  (forall jsSt : jsStats,
     atimeMs jsSt = 1500 -> mtimeMs jsSt = 1500 -> ctimeMs jsSt = 1500 ->
     let st := setStat jsSt in
     (Atime st, AtimeNsec st) = (1, 500000000) /\
     (Mtime st, MtimeNsec st) = (1, 500000000) /\
     (Ctime st, CtimeNsec st) = (1, 500000000)).
Proof.
  cbn zeta. split; [|split; [|split]].
  - intros jsSt. unfold setStat; simpl.
    destruct (ms_split _ (int64_range (atimeMs jsSt))) as [-> ->].
    destruct (ms_split _ (int64_range (mtimeMs jsSt))) as [-> ->].
    by destruct (ms_split _ (int64_range (ctimeMs jsSt))) as [-> ->].
  - apply int64_id.
  - intros ms Hms. by rewrite Z.quot_div_nonneg, Z.rem_mod_nonneg by lia.
  - intros jsSt Ha Hm Hc. unfold setStat; simpl. by rewrite Ha, Hm, Hc.
Qed.

(** ** Open *)

(** C9.  Once the path is accepted and the host's [openSync] has returned a
    descriptor, an error from the [fstatSync] that follows is dropped: [Open]
    returns the descriptor without an error and registers a record without a
    queue.  When [fstatSync] succeeded and the object's [isDirectory] method
    answered true, an error of [readdirSync] is returned as the error of
    [Open] (with descriptor 0, and no record is registered); and that is the
    only error [Open] can still return. *)
Theorem Open_fstat_error_ignored (path : string) (openmode perm : Z)
    (s s1 : State) (jsFD : jsValue) :
  checkPath path = None ->
  fsCall "openSync" [GoString path; GoInt (openFlags openmode); GoInt perm] s
  = (Done (jsFD, None), s1) ->
  let fd := Value_Int jsFD in
  (forall stat errno s2,
     fsCall "fstatSync" [GoInt fd] s1 = (Done (stat, Some errno), s2) ->
     Open path openmode perm s
     = (Done (fd, None),
        withFiles (<[fd := {| path := path; entries := None; pos := 0;
                              seeked := false |}]> (files s2)) s2)) /\
  (forall stat s2 isDir s3 dir errno s4,
     fsCall "fstatSync" [GoInt fd] s1 = (Done (stat, None), s2) ->
     Call (jsThis stat) "isDirectory" [] s2 = (Done isDir, s3) ->
     Value_Bool isDir = true ->
     fsCall "readdirSync" [GoString path] s3 = (Done (dir, Some errno), s4) ->
     Open path openmode perm s = (Done (0, Some errno), s4) /\
     files s4 = files s) /\
  (forall r errno s',
     Open path openmode perm s = (Done (r, Some errno), s') ->
     exists stat s2 isDir s3 dir,
       fsCall "fstatSync" [GoInt fd] s1 = (Done (stat, None), s2) /\
       Call (jsThis stat) "isDirectory" [] s2 = (Done isDir, s3) /\
       Value_Bool isDir = true /\
       fsCall "readdirSync" [GoString path] s3 = (Done (dir, Some errno), s')).
Proof.
  intros Hpath Hopen fd. split; [|split].
  - intros stat errno s2 Hstat. unfold Open, bind.
    rewrite Hpath, Hopen. fold fd. by rewrite Hstat.
  - intros stat s2 isDir s3 dir errno s4 Hstat Hcall Hdir Hread. split.
    + unfold Open, bind. rewrite Hpath, Hopen. fold fd.
      by rewrite Hstat, Hcall, Hdir, Hread.
    + pose proof (fsCall_files "openSync"
                    [GoString path; GoInt (openFlags openmode); GoInt perm] s)
        as H1.
      pose proof (fsCall_files "fstatSync" [GoInt fd] s1) as H2.
      pose proof (Call_files (jsThis stat) "isDirectory" [] s2) as H3.
      pose proof (fsCall_files "readdirSync" [GoString path] s3) as H4.
      rewrite Hopen in H1. rewrite Hstat in H2. rewrite Hcall in H3.
      rewrite Hread in H4. simpl in *. by rewrite H4, H3, H2, H1.
  - intros r errno s'. unfold Open, bind.
    rewrite Hpath, Hopen. fold fd.
    destruct (fsCall "fstatSync" [GoInt fd] s1)
      as [[[stat [e|]]|p] s2] eqn:Hstat; try done.
    destruct (Call (jsThis stat) "isDirectory" [] s2)
      as [[isDir|p] s3] eqn:Hcall; [|done].
    destruct (Value_Bool isDir) eqn:Hdir; [|done].
    destruct (fsCall "readdirSync" [GoString path] s3)
      as [[[dir [e|]]|p] s4] eqn:Hdirs; try done.
    intros [= _ <- <-]. by exists stat, s2, isDir, s3, dir.
Qed.

(** ** Timestamps *)

(** C10.  With two timestamps [UtimesNano] behaves the same whatever their
    nanosecond fields are, and on an accepted path the one host call it
    makes is [utimesSync] with the path and the two [Sec] fields. *)
Theorem UtimesNano_drops_nanoseconds (path : string) (atime mtime : Z)
    (s : State) :
  (forall n0 n1 n0' n1',
     UtimesNano path [{| Sec := atime; Nsec := n0 |};
                      {| Sec := mtime; Nsec := n1 |}] s
     = UtimesNano path [{| Sec := atime; Nsec := n0' |};
                        {| Sec := mtime; Nsec := n1' |}] s) /\
  (forall n0 n1,
     checkPath path = None ->
     let r := UtimesNano path [{| Sec := atime; Nsec := n0 |};
                               {| Sec := mtime; Nsec := n1 |}] s in
     calls r.2
     = calls s ++ [(jsFS, "utimesSync",
                    [GoString path; GoInt atime; GoInt mtime])] /\
     files r.2 = files s).
Proof.
  split; [done|].
  intros n0 n1 Hpath r. subst r. unfold UtimesNano, bind.
  rewrite Hpath. simpl.
  pose proof (fsCall_calls "utimesSync"
                [GoString path; GoInt atime; GoInt mtime] s) as Hc.
  pose proof (fsCall_files "utimesSync"
                [GoString path; GoInt atime; GoInt mtime] s) as Hf.
  by destruct (fsCall _ _ _) as [[[v err]|p] s'].
Qed.

(** ** What stays in the table *)

Lemma keeps_ret {A} k (a : A) : keeps k (ret a).
Proof. by intros s Hs. Qed.

Lemma keeps_bind {A B} k (m : M A) (f : A -> M B) :
  keeps k m -> (forall a, keeps k (f a)) -> keeps k (bind m f).
Proof.
  intros Hm Hf s Hs. unfold bind. specialize (Hm s Hs).
  destruct (m s) as [[a|p] s']; [by apply Hf | done].
Qed.

Lemma keeps_setFile k fd f : keeps k (setFile fd f).
Proof.
  intros s Hs. simpl. destruct (decide (fd = k)) as [->|Hne].
  - rewrite lookup_insert_eq. by eexists.
  - by rewrite lookup_insert_ne.
Qed.

Lemma keeps_deleteFile k fd : fd <> k -> keeps k (deleteFile fd).
Proof. intros Hne s Hs. simpl. by rewrite lookup_delete_ne. Qed.

Lemma keeps_fdToFile k fd : keeps k (fdToFile fd).
Proof. intros s Hs. unfold fdToFile. by destruct (files s !! fd). Qed.

Lemma keeps_Call k recv name args : keeps k (Call recv name args).
Proof.
  intros s Hs. unfold Call.
  by destruct (jsCall recv name args (world s)) as [[v|p] w].
Qed.

Lemma keeps_recoverErr {A} k (zero : A) (body : M A) :
  keeps k body -> keeps k (recoverErr zero body).
Proof.
  intros Hb s Hs. unfold recoverErr. specialize (Hb s Hs).
  destruct (body s) as [[a|[code|]] s']; try done.
  by destruct (errnoByCode code).
Qed.

Lemma keeps_fsCall k name args : keeps k (fsCall name args).
Proof. apply keeps_recoverErr, keeps_Call. Qed.

Ltac keeps_step :=
  match goal with
  | |- keeps _ (bind _ _) => apply keeps_bind; [|intros]
  | |- keeps _ (ret _) => apply keeps_ret
  | |- keeps _ (fsCall _ _) => apply keeps_fsCall
  | |- keeps _ (setFile _ _) => apply keeps_setFile
  | |- keeps _ (fdToFile _) => apply keeps_fdToFile
  | |- keeps _ (recoverErr _ _) => apply keeps_recoverErr
  | |- keeps _ (Call _ _ _) => apply keeps_Call
  | |- keeps _ (match ?x with _ => _ end) => destruct x
  end.

Ltac keeps_all :=
  unfold void, Open, CloseOnExec, Mkdir, ReadDirent, Stat, Lstat, Unlink,
    Rmdir, Chmod, Fchmod, Chown, Fchown, Lchown, UtimesNano, Rename, Truncate,
    Ftruncate, Getcwd, Fchdir, Chdir, Readlink, Link, Symlink, Fsync, Read,
    Write, Pread, Pwrite, Seek, Fstat, Dup, Dup2, Pipe;
  cbv zeta; repeat keeps_step.

Lemma exec_keeps k o : o <> OpClose k -> keeps k (exec o).
Proof.
  intros Hne. destruct o; simpl; try (by keeps_all).
  unfold void, Close. repeat keeps_step.
  apply keeps_deleteFile. congruence.
Qed.

Lemma run_keeps k ops : forall s,
  OpClose k ∉ ops ->
  is_Some (files s !! k) -> is_Some (files (run ops s) !! k).
Proof.
  induction ops as [|o ops IH]; intros s Hnot Hs; [done|].
  apply not_elem_of_cons in Hnot as [Hne Hnot]. simpl.
  pose proof (exec_keeps k o (not_eq_sym Hne) s Hs) as Hk.
  destruct (exec o s) as [[u|p] s']; [by apply IH | done].
Qed.

(** C4, as the code has it.  Descriptors 0, 1 and 2 are in the table at
    process start, and each of them is still there after any sequence of
    calls that does not close it; [Close] itself takes 0, 1 or 2 out of the
    table like any other descriptor. *)
Theorem std_streams_stay (k : Z) (w : World) :
  k = 0 \/ k = 1 \/ k = 2 ->
  is_Some (files (start w) !! k) /\
  (forall ops, OpClose k ∉ ops -> is_Some (files (run ops (start w)) !! k)) /\
  (forall s, files (run [OpClose k] s) !! k = None).
Proof.
  intros Hk.
  assert (Hstart : is_Some (files (start w) !! k)).
  { destruct Hk as [-> | [-> | ->]]; by eexists. }
  split; [done|]. split.
  - intros ops Hnot. by apply run_keeps.
  - intros s. simpl.
    destruct (Close_removes_entry_aux k s) as [Hgone _].
    unfold void, bind.
    destruct (Close k s) as [[err|p] s']; simpl in *; by rewrite Hgone,
      lookup_delete_eq.
Qed.

End Properties.

(** * The properties on a concrete host *)

(** ** The scenarios of the specification *)

Example ReadDirent_all_three :
  let s := withDir ["a"; "bb"; "ccc"] [] in
  let r := @ReadDirent scripted 3 (replicate 12 x00) s in
  r.1 = Done ([x03; x00] ++ bytes "a" ++ [x04; x00] ++ bytes "bb"
              ++ [x05; x00] ++ bytes "ccc", 12, None) /\
  entries <$> files r.2 !! 3 = Some (Some []) /\
  (@ReadDirent scripted 3 (replicate 12 x00) r.2).1
  = Done (replicate 12 x00, 0, None).
Proof. vm_compute. done. Qed.

Example ReadDirent_one_then_two :
  let s := withDir ["a"; "bb"; "ccc"] [] in
  let r := @ReadDirent scripted 3 (replicate 3 x00) s in
  r.1 = Done ([x03; x00] ++ bytes "a", 3, None) /\
  entries <$> files r.2 !! 3 = Some (Some ["bb"; "ccc"]) /\
  (@ReadDirent scripted 3 (replicate 16 x00) r.2).1
  = Done ([x04; x00] ++ bytes "bb" ++ [x05; x00] ++ bytes "ccc"
          ++ replicate 7 x00, 9, None).
Proof. vm_compute. done. Qed.

(** ** Seek, write, seek *)

(** Descriptor 0, three bytes, and a host that reports three bytes written. *)
Lemma seek_write_seek_current_witness :
  let s := @start scripted [Returns (jsNumber 3)] in
  let b := [x61; x62; x63] in
  (files s !! 0 = Some zeroFile /\
   @jsCall scripted jsFS "writeSync"
     [GoInt 0; GoBytes b; GoInt 0; GoInt 3; GoInt 10] (world s)
   = (Returns (jsNumber 3), []) /\
   10 + 3 < 2 ^ 63) /\
  (exists s1 s2 s3,
     Seek 0 10 SeekStart s = (Done (10, None), s1) /\
     Write 0 b s1 = (Done (3, None), s2) /\
     Seek 0 0 SeekCurrent s2 = (Done (10 + 3, None), s3)) /\
  (exists s',
     Seek 0 4 SeekCurrent s = (Done (int64 (0 + 4), None), s') /\
     world s' = world s /\ calls s' = calls s) /\
  (exists s',
     Write 0 b (withFiles (<[0 := set_seeked true zeroFile]> (files s)) s)
     = (Done (3, None), s') /\
     files s' !! 0
     = Some (set_pos (int64 (0 + int64 3)) (set_seeked true zeroFile))).
Proof.
  intros s b.
  split; [repeat split; reflexivity|].
  split; [|split].
  - apply (proj1 (@seek_write_seek_current scripted 0) b s zeroFile
             (jsNumber 3) []); reflexivity.
  - apply (proj1 (proj2 (@seek_write_seek_current scripted 0)) 4 s zeroFile);
      [reflexivity | vm_compute; discriminate].
  - apply (proj2 (proj2 (@seek_write_seek_current scripted 0)) b
             (withFiles (<[0 := set_seeked true zeroFile]> (files s)) s)
             (set_seeked true zeroFile) (jsNumber 3) []); reflexivity.
Defined.

(** C7 fails as stated: a seek from the end to a negative position is
    refused with [EINVAL], but the host's [fstatSync] has been called by
    then. *)
Lemma Seek_end_negative_calls_host :
  let s := @start scripted [Returns (jsObject zeroStats)] in
  let r := Seek 0 (-1) SeekEnd s in
  files s !! 0 = Some zeroFile /\
  r.1 = Done (0, Some EINVAL) /\
  calls s = [] /\
  calls r.2 = [(jsFS, "fstatSync", [GoInt 0])] /\
  world r.2 <> world s.
Proof. vm_compute. repeat split; discriminate. Qed.

Lemma Seek_rejects_witness :
  let s := @start scripted [Returns (jsObject zeroStats)] in
  files s !! 0 = Some zeroFile /\
  Seek 0 (-1) 7 s = (Done (0, Some EINVAL), s) /\
  Seek 0 (-1) SeekStart s = (Done (0, Some EINVAL), s) /\
  Seek 0 (-1) SeekCurrent s = (Done (0, Some EINVAL), s) /\
  Seek 0 (-1) SeekEnd s
  = (Done (0, Some EINVAL), afterCall s [] (jsFS, "fstatSync", [GoInt 0])).
Proof.
  intros s.
  pose proof (@Seek_rejects scripted 0 (-1) s zeroFile eq_refl)
    as (Hwhence & Hstart & Hcur & Hend).
  split; [reflexivity|]. split; [|split; [|split]].
  - apply Hwhence; discriminate.
  - apply Hstart. reflexivity.
  - apply Hcur. reflexivity.
  - apply (Hend (jsObject zeroStats) []); reflexivity.
Defined.

(** ** Directory entries *)

(** C3 fails as stated: for a name of 65534 bytes the record is 65536 bytes
    long and its two length bytes are both zero. *)
Lemma ReadDirent_long_name_prefix :
  let s := withDir [longName] [] in
  let r := @ReadDirent scripted 3 (replicate (Z.to_nat 65536) x00) s in
  len longName = 65534 /\
  match r.1 with
  | Done (b0 :: b1 :: name, n, err) =>
      Some (b0, b1, Z.of_nat (length name), n, err)
  | _ => None
  end = Some (x00, x00, 65534, 65536, None) /\
  reclen longName = 65536 /\
  le16 x00 x00 <> reclen longName.
Proof. vm_compute. repeat split; discriminate. Qed.

Lemma ReadDirent_records_witness :
  let s := withDir ["a"; "bb"; "ccc"] [] in
  let f := {| path := "d"; entries := Some ["a"; "bb"; "ccc"]; pos := 0;
              seeked := false |} in
  let buf := replicate 8 x00 in
  files s !! 3 = Some f /\
  (exists k : nat,
     let written := take k ["a"; "bb"; "ccc"] in
     let n := total written in
     (k <= 3)%nat /\
     n <= 8 /\
     (forall e, ["a"; "bb"; "ccc"] !! k = Some e -> reclen e > 8 - n) /\
     Z.of_nat (length (concat (dirent <$> written))) = n /\
     ReadDirent 3 buf s
     = (Done (concat (dirent <$> written) ++ drop (Z.to_nat n) buf, n, None),
        withFiles
          (<[3 := set_entries (Some (drop k ["a"; "bb"; "ccc"])) f]> (files s))
          s)) /\
  (files (withDir [] []) !! 0 = Some zeroFile /\
   ReadDirent 0 buf (withDir [] [])
   = (Done (buf, 0, Some EINVAL), withDir [] [])) /\
  (exists b0 b1,
     dirent "bb" = b0 :: b1 :: bytes "bb" /\
     le16 b0 b1 = reclen "bb" mod 65536 /\
     (len "bb" < 65534 -> le16 b0 b1 = reclen "bb")).
Proof.
  intros s f buf.
  pose proof (@ReadDirent_records scripted 3 buf s f eq_refl)
    as (_ & Hqueue & Hrec).
  pose proof (@ReadDirent_records scripted 0 buf (withDir [] []) zeroFile
                eq_refl) as (Hnil & _).
  split; [reflexivity|]. split; [|split].
  - apply (Hqueue ["a"; "bb"; "ccc"]). reflexivity.
  - split; [reflexivity|]. apply Hnil. reflexivity.
  - apply Hrec.
Defined.

(** C5 fails as stated: with a buffer too short for the first record the
    call returns zero bytes and no error although the queue is not empty,
    and the queue stays as it was. *)
Lemma ReadDirent_zero_with_pending_entry :
  let s := withDir ["a"] [] in
  let r := @ReadDirent scripted 3 [x00; x00] s in
  (entries <$> files s !! 3) = Some (Some ["a"]) /\
  r.1 = Done ([x00; x00], 0, None) /\
  (entries <$> files r.2 !! 3) = Some (Some ["a"]).
Proof. vm_compute. done. Qed.

Lemma ReadDirent_zero_witness :
  let s := withDir ["a"] [] in
  let f := {| path := "d"; entries := Some ["a"]; pos := 0; seeked := false |} in
  files s !! 3 = Some f /\
  exists buf' n s',
    ReadDirent 3 [x00; x00] s = (Done (buf', n, None), s') /\
    (n = 0 <->
     ["a"] = [] \/
     exists e rest, ["a"] = e :: rest /\ reclen e > Z.of_nat (length [x00; x00])).
Proof.
  intros s f. split; [reflexivity|].
  apply (@ReadDirent_zero scripted 3 [x00; x00] s f ["a"]); reflexivity.
Defined.

(** ** Ownership changes *)

(** C6 fails as stated: on the empty path [Chown] and [Lchown] fail with
    [EINVAL], which is not [ENOSYS]. *)
Lemma Chown_empty_path_EINVAL :
  let s := @start scripted [] in
  Chown "" 0 0 s = (Done (Some EINVAL), s) /\
  Lchown "" 0 0 s = (Done (Some EINVAL), s) /\
  Some EINVAL <> Some ENOSYS.
Proof. repeat split; discriminate. Qed.

Lemma chown_family_witness :
  let s := @start scripted [] in
  Fchown 7 1000 1000 s = (Done (Some ENOSYS), s) /\
  (Chown "f" 1000 1000 s = (Done (Some ENOSYS), s) /\
   Lchown "f" 1000 1000 s = (Done (Some ENOSYS), s)) /\
  (Chown "" 1000 1000 s = (Done (Some EINVAL), s) /\
   Lchown "" 1000 1000 s = (Done (Some EINVAL), s)).
Proof.
  intros s.
  pose proof (@chown_family scripted 1000 1000 s) as (Hf & Hok & Hbad).
  split; [apply Hf|]. split.
  - apply Hok; [discriminate | reflexivity].
  - apply Hbad. left. reflexivity.
Defined.

(** ** Metadata *)

Lemma setStat_timestamps_witness :
  let st := setStat dirStats in
  (Atime st, AtimeNsec st) = (1, 500000000) /\
  (Mtime st, MtimeNsec st) = (1, 500000000) /\
  (Ctime st, CtimeNsec st) = (1, 500000000).
Proof.
  apply (proj2 (proj2 (proj2 setStat_timestamps)) dirStats); reflexivity.
Defined.

(** ** Open *)

(** The host opens descriptor 3 and then refuses the [fstatSync]; on a second
    host the [fstatSync] succeeds, [isDirectory] answers true and
    [readdirSync] is refused. *)
Lemma Open_fstat_error_ignored_witness :
  let s := @start scripted [Returns (jsNumber 3); Throws (JsError "EIO")] in
  let s' := @start scripted [Returns (jsNumber 3); Returns (jsObject dirStats);
                             Returns (jsBool true);
                             Throws (JsError "ENOENT")] in
  checkPath "f" = None /\
  (exists s2,
     Open "f" 0 0 s = (Done (3, None), s2) /\
     files s2 !! 3
     = Some {| path := "f"; entries := None; pos := 0; seeked := false |}) /\
  (Open "f" 0 0 s' = (Done (0, Some 2), (Open "f" 0 0 s').2) /\
   files (Open "f" 0 0 s').2 = files s') /\
  (exists stat s2 isDir s3 dir,
     fsCall "fstatSync" [GoInt 3]
       (afterCall s' [Returns (jsObject dirStats); Returns (jsBool true);
                      Throws (JsError "ENOENT")]
          (jsFS, "openSync", [GoString "f"; GoInt 0; GoInt 0]))
     = (Done (stat, None), s2) /\
     Call (jsThis stat) "isDirectory" [] s2 = (Done isDir, s3) /\
     Value_Bool isDir = true /\
     fsCall "readdirSync" [GoString "f"] s3
     = (Done (dir, Some 2), (Open "f" 0 0 s').2)).
Proof.
  intros s s'.
  pose proof (@Open_fstat_error_ignored scripted "f" 0 0 s
                (afterCall s [Throws (JsError "EIO")]
                   (jsFS, "openSync", [GoString "f"; GoInt 0; GoInt 0]))
                (jsNumber 3) eq_refl eq_refl) as (Hignored & _ & _).
  pose proof (@Open_fstat_error_ignored scripted "f" 0 0 s'
                (afterCall s'
                   [Returns (jsObject dirStats); Returns (jsBool true);
                    Throws (JsError "ENOENT")]
                   (jsFS, "openSync", [GoString "f"; GoInt 0; GoInt 0]))
                (jsNumber 3) eq_refl eq_refl) as (_ & Hsurfaced & Honly).
  split; [reflexivity|]. split; [|split].
  - eexists. split; [apply (Hignored jsUndefined 5); reflexivity | reflexivity].
  - eapply (Hsurfaced (jsObject dirStats) _ (jsBool true) _ jsUndefined 2);
      reflexivity.
  - apply (Honly 0 2). reflexivity.
Defined.

(** ** Timestamps *)

Lemma UtimesNano_drops_nanoseconds_witness :
  let s := @start scripted [] in
  let ts (n0 n1 : Z) := [{| Sec := 12; Nsec := n0 |}; {| Sec := 34; Nsec := n1 |}] in
  checkPath "f" = None /\
  UtimesNano "f" (ts 5 6) s = UtimesNano "f" (ts 999999999 0) s /\
  calls (UtimesNano "f" (ts 5 6) s).2
  = calls s ++ [(jsFS, "utimesSync", [GoString "f"; GoInt 12; GoInt 34])] /\
  files (UtimesNano "f" (ts 5 6) s).2 = files s.
Proof.
  intros s ts.
  pose proof (@UtimesNano_drops_nanoseconds scripted "f" 12 34 s)
    as [Hsame Hcall].
  split; [reflexivity|]. split; [apply Hsame|].
  apply (Hcall 5 6). reflexivity.
Defined.

(** ** The standard streams *)

(** C4 fails as stated: closing descriptor 0 takes its record out of the
    table. *)
Lemma Close_removes_stdin :
  let s := @start scripted [] in
  is_Some (files s !! 0) /\
  files (run [OpClose 0] s) !! 0 = None /\
  (Read 0 [] (run [OpClose 0] s)).1 = Done (0, Some EBADF).
Proof. split; [by eexists | vm_compute; done]. Qed.

Lemma std_streams_stay_witness :
  let ops := [OpClose 1; OpSeek 0 5 SeekStart; OpOpen "f" 0 0; OpClose 3] in
  (0 = 0 \/ 0 = 1 \/ 0 = 2) /\
  (OpClose 0 ∉ ops) /\
  is_Some (files (@start scripted []) !! 0) /\
  is_Some (files (run ops (@start scripted [])) !! 0) /\
  files (run [OpClose 0] (@start scripted [])) !! 0 = None.
Proof.
  intros ops.
  assert (Hnot : OpClose 0 ∉ ops).
  { intros Hin. repeat (apply elem_of_cons in Hin as [Heq | Hin];
                        [discriminate Heq|]).
    by apply elem_of_nil in Hin. }
  pose proof (@std_streams_stay scripted 0 [] (or_introl eq_refl))
    as (Hstart & Hrun & Hclose).
  split; [by left|]. split; [exact Hnot|]. split; [exact Hstart|].
  split; [exact (Hrun ops Hnot) | exact (Hclose _)].
Defined.

(** * Further properties of the entry points *)

(** ** Paths *)

Lemma hasNul_spec path :
  hasNul path = true <-> Ascii.zero ∈ String.list_ascii_of_string path.
Proof.
  induction path as [|c path IH]; simpl.
  - split; [done | by intros ?%elem_of_nil].
  - destruct (Ascii.eqb_spec c Ascii.zero) as [->|Hne].
    + split; [intros _; apply elem_of_cons; by left | done].
    + rewrite IH. split; [intros Hin; apply elem_of_cons; by right|].
      intros [Heq|Hin]%elem_of_cons; [congruence | done].
Qed.

Lemma checkPath_cases path :
  checkPath path = None \/ checkPath path = Some EINVAL.
Proof.
  unfold checkPath. destruct (String.eqb path ""); [by right|].
  destruct (hasNul path); [by right | by left].
Qed.

(** X1.  [checkPath] accepts exactly the paths that are not empty and hold
    no NUL byte, and its only error is [EINVAL]. *)
Theorem checkPath_spec (path : string) :
  (checkPath path = None <->
   path <> "" /\ Ascii.zero ∉ String.list_ascii_of_string path) /\
  (checkPath path <> None -> checkPath path = Some EINVAL).
Proof.
  split.
  - rewrite <- hasNul_spec. unfold checkPath.
    destruct (String.eqb_spec path "") as [->|Hne].
    + split; [done | by intros [? _]].
    + destruct (hasNul path).
      * split; [done | intros [_ Hn]; by destruct Hn].
      * split; [intros _; split; [done | discriminate] | done].
  - intros Hbad. by destruct (checkPath_cases path).
Qed.

Section PathChecks.
Context `{Host}.

(** X2.  Every entry point that takes a path refuses a path that [checkPath]
    rejects with [EINVAL], before any host call and without touching the
    state; the entry points with two paths do so when either path is
    rejected. *)
Theorem rejected_path_is_local (bad : string) (s : State) :
  checkPath bad <> None ->
  (forall openmode perm, Open bad openmode perm s = (Done (0, Some EINVAL), s)) /\
  (forall perm, Mkdir bad perm s = (Done (Some EINVAL), s)) /\
  (forall st, Stat bad st s = (Done (st, Some EINVAL), s)) /\
  (forall st, Lstat bad st s = (Done (st, Some EINVAL), s)) /\
  Unlink bad s = (Done (Some EINVAL), s) /\
  Rmdir bad s = (Done (Some EINVAL), s) /\
  (forall mode, Chmod bad mode s = (Done (Some EINVAL), s)) /\
  (forall ts, UtimesNano bad ts s = (Done (Some EINVAL), s)) /\
  (forall length, Truncate bad length s = (Done (Some EINVAL), s)) /\
  Chdir bad s = (Done (Some EINVAL), s) /\
  (forall buf, Readlink bad buf s = (Done (buf, 0, Some EINVAL), s)) /\
  (forall other,
     Rename bad other s = (Done (Some EINVAL), s) /\
     Rename other bad s = (Done (Some EINVAL), s) /\
     Link bad other s = (Done (Some EINVAL), s) /\
     Link other bad s = (Done (Some EINVAL), s) /\
     Symlink bad other s = (Done (Some EINVAL), s) /\
     Symlink other bad s = (Done (Some EINVAL), s)).
Proof.
  intros Hbad.
  assert (Hb : checkPath bad = Some EINVAL)
    by (by destruct (checkPath_cases bad)).
  unfold Open, Mkdir, Stat, Lstat, Unlink, Rmdir, Chmod, UtimesNano, Truncate,
    Chdir, Readlink, Rename, Link, Symlink.
  rewrite Hb. repeat split.
  all: by destruct (checkPath_cases other) as [-> | ->].
Qed.

(** X3.  [UtimesNano] refuses every timestamp array whose length is not 2
    with [EINVAL], before any host call. *)
Theorem UtimesNano_wrong_length (path : string) (ts : list Timespec) (s : State) :
  length ts <> 2%nat ->
  UtimesNano path ts s = (Done (Some EINVAL), s).
Proof.
  intros Hlen. unfold UtimesNano.
  destruct (checkPath_cases path) as [-> | ->]; [|done].
  by destruct ts as [|t0 [|t1 [|t2 ts]]].
Qed.

(** ** The flag translation of Open *)

Lemma testbit_flag (c : bool) (flags node : Z) (i : Z) :
  Z.testbit (if c then flags else Z.lor flags node) i
  = Z.testbit flags i || (negb c && Z.testbit node i).
Proof. destruct c; [by rewrite orb_false_r | by rewrite Z.lor_spec]. Qed.

(** X4.  The flags handed to the host's [openSync] have, at every bit
    position, the bits of the host constants of exactly those abstract flags
    that meet [openmode], and nothing else. *)
Theorem openFlags_bits (openmode : Z) (i : Z) :
  let on (flag : Z) := negb (Z.land openmode flag =? 0) in
  Z.testbit (openFlags openmode) i
  = (on O_WRONLY && Z.testbit nodeWRONLY i)
    || (on O_RDWR && Z.testbit nodeRDWR i)
    || (on O_CREATE && Z.testbit nodeCREATE i)
    || (on O_TRUNC && Z.testbit nodeTRUNC i)
    || (on O_APPEND && Z.testbit nodeAPPEND i)
    || (on O_EXCL && Z.testbit nodeEXCL i)
    || (on O_NONBLOCK && Z.testbit nodeNONBLOCK i)
    || (on O_SYNC && Z.testbit nodeSYNC i).
Proof.
  cbn zeta. unfold openFlags. by rewrite !testbit_flag, Z.bits_0.
Qed.

End PathChecks.

(** ** Who reads and who changes the table *)

Section Table.
Context `{Host}.

Lemma blind_ret {A} (a : A) : blind (ret a).
Proof. by intros tbl s. Qed.

Lemma blind_bind {A B} (m : M A) (f : A -> M B) :
  blind m -> (forall a, blind (f a)) -> blind (bind m f).
Proof.
  intros Hm Hf tbl s. unfold bind. rewrite Hm.
  destruct (m s) as [[a|p] s']; simpl; [apply Hf | done].
Qed.

Lemma blind_Call recv name args : blind (Call recv name args).
Proof.
  intros tbl s. unfold Call. simpl.
  by destruct (jsCall recv name args (world s)) as [[v|p] w].
Qed.

Lemma blind_recoverErr {A} (zero : A) (body : M A) :
  blind body -> blind (recoverErr zero body).
Proof.
  intros Hb tbl s. unfold recoverErr. rewrite Hb.
  destruct (body s) as [[a|[code|]] s']; simpl; try done.
  by destruct (errnoByCode code).
Qed.

Lemma blind_fsCall name args : blind (fsCall name args).
Proof. apply blind_recoverErr, blind_Call. Qed.

Ltac blind_step :=
  match goal with
  | |- blind (bind _ _) => apply blind_bind; [|intros]
  | |- blind (ret _) => apply blind_ret
  | |- blind (fsCall _ _) => apply blind_fsCall
  | |- blind (match ?x with _ => _ end) => destruct x
  end.

(** X5.  The entry points that hand a descriptor straight to the host
    ([Fstat], [Fchmod], [Ftruncate], [Fsync], [Pread], [Pwrite]) neither
    consult nor change the table: their result and their host call are the
    same whether or not the descriptor is registered, and whatever its
    record holds. *)
Theorem passthrough_ignores_table (fd : Z) :
  (forall st, blind (Fstat fd st)) /\
  (forall mode, blind (Fchmod fd mode)) /\
  (forall length, blind (Ftruncate fd length)) /\
  blind (Fsync fd) /\
  (forall b offset, blind (Pread fd b offset)) /\
  (forall b offset, blind (Pwrite fd b offset)).
Proof.
  unfold Fstat, Fchmod, Ftruncate, Fsync, Pread, Pwrite.
  repeat split; intros; repeat blind_step.
Qed.

Lemma same_ret {A} k (a : A) : same k (ret a).
Proof. by intros s. Qed.

Lemma same_bind {A B} k (m : M A) (f : A -> M B) :
  same k m -> (forall a, same k (f a)) -> same k (bind m f).
Proof.
  intros Hm Hf s. unfold bind. specialize (Hm s).
  destruct (m s) as [[a|p] s']; simpl in *; [|done].
  by rewrite Hf.
Qed.

Lemma same_blind {A} k (m : M A) : blind m -> same k m.
Proof.
  intros Hb s. rewrite <- (withFiles_id s) at 1. by rewrite Hb.
Qed.

Lemma same_fsCall k name args : same k (fsCall name args).
Proof. apply same_blind, blind_fsCall. Qed.

Lemma same_recoverCall {A} k (zero : A) recv name args (f : jsValue -> M A) :
  (forall v, same k (f v)) ->
  same k (recoverErr zero (bind (Call recv name args) f)).
Proof.
  intros Hf s. unfold recoverErr, bind, Call.
  destruct (jsCall recv name args (world s)) as [[v|[code|]] w]; simpl.
  - specialize (Hf v (afterCall s w (recv, name, args))).
    destruct (f v _) as [[a|[code|]] s']; simpl in *; try done.
    by destruct (errnoByCode code).
  - by destruct (errnoByCode code).
  - done.
Qed.

Lemma same_fdToFile k fd : same k (fdToFile fd).
Proof. intros s. unfold fdToFile. by destruct (files s !! fd). Qed.

Lemma same_setFile k fd f : fd <> k -> same k (setFile fd f).
Proof. intros Hne s. simpl. by rewrite lookup_insert_ne. Qed.

Lemma same_deleteFile k fd : fd <> k -> same k (deleteFile fd).
Proof. intros Hne s. simpl. by rewrite lookup_delete_ne. Qed.

Ltac same_step :=
  match goal with
  | |- same _ (bind _ _) => apply same_bind; [|intros]
  | |- same _ (ret _) => apply same_ret
  | |- same _ (fsCall _ _) => apply same_fsCall
  | |- same _ (recoverErr _ (bind (Call _ _ _) _)) =>
      apply same_recoverCall; intros
  | |- same _ (fdToFile _) => apply same_fdToFile
  | |- same _ (setFile _ _) => apply same_setFile; congruence
  | |- same _ (deleteFile _) => apply same_deleteFile; congruence
  | |- same _ (match ?x with _ => _ end) => destruct x
  end.

Ltac same_all :=
  unfold void, Close, CloseOnExec, Mkdir, ReadDirent, Stat, Lstat, Unlink,
    Rmdir, Chmod, Fchmod, Chown, Fchown, Lchown, UtimesNano, Rename, Truncate,
    Ftruncate, Getcwd, Fchdir, Chdir, Readlink, Link, Symlink, Fsync, Read,
    Write, Pread, Pwrite, Seek, Fstat, Dup, Dup2, Pipe;
  cbv zeta; repeat same_step.

Lemma exec_same k o :
  isOpen o = false -> target o <> Some k -> same k (exec o).
Proof.
  intros Hopen Htarget. destruct o; simpl in *; try discriminate;
    by same_all.
Qed.

Lemma exec_same_entry o k s :
  isOpen o = false -> target o <> Some k ->
  files (exec o s).2 !! k = files s !! k.
Proof. intros Hopen Htarget. by apply exec_same. Qed.

(** X6.  Apart from [Open], a call changes at most the table entry of the
    descriptor it is given, and only [Close], [ReadDirent], [Read], [Write]
    and [Seek] change any entry: every other entry of the table, its record
    included, is the same before and after the call. *)
Theorem table_changes_are_local (o : op) (k : Z) (s : State) :
  isOpen o = false ->
  target o <> Some k ->
  files (exec o s).2 !! k = files s !! k.
Proof. intros Hopen Htarget. by apply exec_same. Qed.

End Table.

(** ** The life of a record *)

Lemma evolves_refl f : evolves f f.
Proof.
  unfold evolves. split; [done|]. split; [done|].
  destruct (entries f) as [q|]; [|done]. by exists 0%nat.
Qed.

Lemma evolves_trans f1 f2 f3 : evolves f1 f2 -> evolves f2 f3 -> evolves f1 f3.
Proof.
  intros (Hp1 & Hs1 & He1) (Hp2 & Hs2 & He2). repeat split.
  - congruence.
  - auto.
  - destruct (entries f1) as [q|].
    + destruct He1 as [k1 He1]. rewrite He1 in He2. destruct He2 as [k2 ->].
      exists (k1 + k2)%nat. by rewrite drop_drop.
    + by rewrite He1 in He2.
Qed.

Lemma evolves_set_pos p f : evolves f (set_pos p f).
Proof. exact (evolves_refl f). Qed.

Lemma evolves_seek p f : evolves f (set_pos p (set_seeked true f)).
Proof.
  unfold evolves. simpl. split; [done|]. split; [done|].
  destruct (entries f) as [q|]; [|done]. by exists 0%nat.
Qed.

Lemma evolves_entries f q k :
  entries f = Some q -> evolves f (set_entries (Some (drop k q)) f).
Proof.
  intros Hq. unfold evolves. rewrite Hq. simpl.
  split; [done|]. split; [done|]. by exists k.
Qed.

Section Evolution.
Context `{Host}.

Lemma void_state {A} (m : M A) s : (void m s).2 = (m s).2.
Proof. unfold void, bind. by destruct (m s) as [[a|p] s']. Qed.

Ltac host_cases :=
  rewrite fsCall_eq;
  match goal with
  | |- context [jsCall ?r ?n ?a ?w] =>
      destruct (jsCall r n a w) as [[?|[code|]] ?];
      [| destruct (errnoByCode code) |]
  end; simpl.

Ltac found :=
  first
    [ eexists; split; [eassumption | apply evolves_refl]
    | eexists; split; [apply lookup_insert_eq | apply evolves_set_pos]
    | eexists; split; [apply lookup_insert_eq | apply evolves_seek] ].

Lemma Read_evolves k b s f :
  files s !! k = Some f ->
  exists f', files (Read k b s).2 !! k = Some f' /\ evolves f f'.
Proof.
  intros Hf. unfold Read, bind. rewrite (fdToFile_Some _ _ _ Hf).
  destruct (seeked f); unfold Pread, bind; host_cases; found.
Qed.

Lemma Write_evolves k b s f :
  files s !! k = Some f ->
  exists f', files (Write k b s).2 !! k = Some f' /\ evolves f f'.
Proof.
  intros Hf. unfold Write, bind. rewrite (fdToFile_Some _ _ _ Hf).
  destruct (seeked f); unfold Pwrite, bind; host_cases; found.
Qed.

Lemma Seek_evolves k offset whence s f :
  files s !! k = Some f ->
  exists f', files (Seek k offset whence s).2 !! k = Some f' /\ evolves f f'.
Proof.
  intros Hf. unfold Seek, bind. rewrite (fdToFile_Some _ _ _ Hf). cbv zeta.
  destruct (whence =? SeekStart).
  { destruct (offset <? 0); simpl; found. }
  destruct (whence =? SeekCurrent).
  { destruct (int64 (pos f + offset) <? 0); simpl; found. }
  destruct (whence =? SeekEnd); [|simpl; found].
  unfold Fstat, bind. host_cases; try found.
  match goal with |- context [if ?c then _ else _] => destruct c end;
    simpl; found.
Qed.

Lemma ReadDirent_evolves k buf s f :
  files s !! k = Some f ->
  exists f', files (ReadDirent k buf s).2 !! k = Some f' /\ evolves f f'.
Proof.
  intros Hf. destruct (entries f) as [q|] eqn:Hq.
  - rewrite (ReadDirent_eq _ _ _ _ _ Hf Hq). simpl.
    destruct (direntLoop_spec q buf 0) as (n & _ & _ & _ & ->). simpl.
    eexists. split; [apply lookup_insert_eq | by apply evolves_entries].
  - unfold ReadDirent, bind. rewrite (fdToFile_Some _ _ _ Hf), Hq. simpl.
    found.
Qed.

Lemma exec_evolves k o s f :
  isOpen o = false -> o <> OpClose k ->
  files s !! k = Some f ->
  exists f', files (exec o s).2 !! k = Some f' /\ evolves f f'.
Proof.
  intros Hopen Hclose Hf.
  destruct (decide (target o = Some k)) as [Hk|Hk].
  - destruct o; simpl in Hk; try discriminate; injection Hk as ->;
      try congruence; simpl; rewrite void_state.
    + by apply ReadDirent_evolves.
    + by apply Read_evolves.
    + by apply Write_evolves.
    + by apply Seek_evolves.
  - exists f. split; [|apply evolves_refl].
    by rewrite (exec_same_entry o k s Hopen Hk).
Qed.

(** X7.  Through any sequence of calls that neither opens a descriptor nor
    closes descriptor [k], the record of [k] stays in the table with the
    path it was opened with; once positioned by a seek it stays positioned;
    a record without a queue never gets one, and a queue is only ever
    shortened at its front, so an exhausted queue is never refilled. *)
Theorem record_evolves (ops : list op) (k : Z) : forall (s : State) (f : jsFile),
  Forall (fun o => isOpen o = false /\ o <> OpClose k) ops ->
  files s !! k = Some f ->
  exists f',
    files (run ops s) !! k = Some f' /\
    path f' = path f /\
    (seeked f = true -> seeked f' = true) /\
    (entries f = None -> entries f' = None) /\
    (forall q, entries f = Some q -> exists n : nat, entries f' = Some (drop n q)).
Proof.
  assert (Hrun : forall s f,
    Forall (fun o => isOpen o = false /\ o <> OpClose k) ops ->
    files s !! k = Some f ->
    exists f', files (run ops s) !! k = Some f' /\ evolves f f').
  { induction ops as [|o ops IH]; intros s f Hall Hf.
    - exists f. split; [done | apply evolves_refl].
    - apply Forall_cons in Hall as [[Hopen Hclose] Hall]. simpl.
      destruct (exec_evolves k o s f Hopen Hclose Hf) as (f1 & Hf1 & Hev1).
      destruct (exec o s) as [[u|p] s1]; simpl in Hf1.
      + destruct (IH s1 f1 Hall Hf1) as (f2 & Hf2 & Hev2).
        exists f2. split; [done | by eapply evolves_trans].
      + by exists f1. }
  intros s f Hall Hf.
  destruct (Hrun s f Hall Hf) as (f' & Hf' & Hp & Hs & He).
  exists f'. repeat split; try done.
  - intros Hnone. by rewrite Hnone in He.
  - intros q Hq. by rewrite Hq in He.
Qed.

End Evolution.

(** ** Panics *)

Section Panics.
Context `{Host}.

Lemma fromHost_ret {A} (a : A) : fromHost (ret a).
Proof. by intros s p s'. Qed.

Lemma fromHost_bind {A B} (m : M A) (f : A -> M B) :
  fromHost m -> (forall a, fromHost (f a)) -> fromHost (bind m f).
Proof.
  intros Hm Hf s p s'. unfold bind.
  destruct (m s) as [[a|q] s1] eqn:Hms.
  - apply Hf.
  - intros [= <- <-]. by eapply Hm.
Qed.

Lemma fromHost_Call recv name args : fromHost (Call recv name args).
Proof.
  intros s p s'. unfold Call.
  destruct (jsCall recv name args (world s)) as [[v|q] w] eqn:Hc; [done|].
  intros [= <- <-]. by exists recv, name, args, (world s), w.
Qed.

Lemma wild_ret {A} (a : A) : wild (ret a).
Proof. by intros s p s'. Qed.

Lemma wild_bind {A B} (m : M A) (f : A -> M B) :
  wild m -> (forall a, wild (f a)) -> wild (bind m f).
Proof.
  intros Hm Hf s p s'. unfold bind.
  destruct (m s) as [[a|q] s1] eqn:Hms.
  - apply Hf.
  - intros [= <- <-]. by eapply Hm.
Qed.

Lemma wild_recoverErr {A} (zero : A) (body : M A) :
  fromHost body -> wild (recoverErr zero body).
Proof.
  intros Hb s p s'. unfold recoverErr.
  destruct (body s) as [[a|[code|]] s1] eqn:Hbs; [done| |].
  - destruct (errnoByCode code) as [errno|] eqn:Hcode; [done|].
    intros [= <- <-]. split; [by eapply Hb|].
    intros (code' & errno & [= <-] & Hknown). congruence.
  - intros [= <- <-]. split; [by eapply Hb|].
    by intros (code & errno & [=] & _).
Qed.

Lemma wild_fsCall name args : wild (fsCall name args).
Proof. apply wild_recoverErr, fromHost_Call. Qed.

Lemma wild_fdToFile fd : wild (fdToFile fd).
Proof. intros s p s'. unfold fdToFile. by destruct (files s !! fd). Qed.

Lemma wild_setFile fd f : wild (setFile fd f).
Proof. by intros s p s'. Qed.

Lemma wild_deleteFile fd : wild (deleteFile fd).
Proof. by intros s p s'. Qed.

Ltac wild_step :=
  match goal with
  | |- wild (bind _ _) => apply wild_bind; [|intros]
  | |- wild (ret _) => apply wild_ret
  | |- wild (fsCall _ _) => apply wild_fsCall
  | |- wild (recoverErr _ _) => apply wild_recoverErr
  | |- wild (fdToFile _) => apply wild_fdToFile
  | |- wild (setFile _ _) => apply wild_setFile
  | |- wild (deleteFile _) => apply wild_deleteFile
  | |- wild (match ?x with _ => _ end) => destruct x
  | |- fromHost (bind _ _) => apply fromHost_bind; [|intros]
  | |- fromHost (ret _) => apply fromHost_ret
  | |- fromHost (Call _ _ _) => apply fromHost_Call
  end.

Lemma exec_wild o : isOpen o = false -> wild (exec o).
Proof.
  intros Hopen. destruct o; simpl in *; try discriminate;
    unfold void, Close, CloseOnExec, Mkdir, ReadDirent, Stat, Lstat,
      Unlink, Rmdir, Chmod, Fchmod, Chown, Fchown, Lchown, UtimesNano, Rename,
      Truncate, Ftruncate, Getcwd, Fchdir, Chdir, Readlink, Link, Symlink,
      Fsync, Read, Write, Pread, Pwrite, Seek, Fstat, Dup, Dup2, Pipe;
    cbv zeta; repeat wild_step.
Qed.

Lemma wildButMethod_wild {A} (m : M A) : wild m -> wildButMethod m.
Proof.
  intros Hm s p s' Hp. destruct (Hm s p s' Hp) as [Hthrown Hwild].
  split; [done|]. intros Ht. by destruct Hwild.
Qed.

Lemma wildButMethod_bind {A B} (m : M A) (f : A -> M B) :
  wildButMethod m -> (forall a, wildButMethod (f a)) ->
  wildButMethod (bind m f).
Proof.
  intros Hm Hf s p s'. unfold bind.
  destruct (m s) as [[a|q] s1] eqn:Hms.
  - apply Hf.
  - intros [= <- <-]. by eapply Hm.
Qed.

Lemma wildButMethod_isDirectory v :
  wildButMethod (Call (jsThis v) "isDirectory" []).
Proof.
  intros s p s' Hp. split; [by eapply fromHost_Call|].
  intros _. exists v. revert Hp. unfold Call.
  destruct (jsCall (jsThis v) "isDirectory" [] (world s)) as [[r|q] w];
    [done|].
  intros [= <- <-]. simpl. apply last_snoc.
Qed.

Ltac method_step :=
  match goal with
  | |- wildButMethod (bind (Call (jsThis _) _ _) _) =>
      apply wildButMethod_bind; [apply wildButMethod_isDirectory | intros]
  | |- wildButMethod (bind _ _) => apply wildButMethod_bind; [|intros]
  | |- wildButMethod (match ?x with _ => _ end) => destruct x
  | |- wildButMethod _ => apply wildButMethod_wild; repeat wild_step
  end.

Lemma Open_wildButMethod path openmode perm :
  wildButMethod (void (Open path openmode perm)).
Proof. unfold void, Open. cbv zeta. repeat method_step. Qed.



End Panics.

(** ** Host calls *)

Section Calls.
Context `{Host}.

Lemma atMost_ret {A} n (a : A) : atMost n (ret a).
Proof. intros s. exists []. simpl. split; [by rewrite app_nil_r | lia]. Qed.

Lemma atMost_bind {A B} n1 n2 n (m : M A) (f : A -> M B) :
  atMost n1 m -> (forall a, atMost n2 (f a)) -> (n1 + n2 <= n)%nat ->
  atMost n (bind m f).
Proof.
  intros Hm Hf Hn s. unfold bind. destruct (Hm s) as (l1 & Hl1 & Hlen1).
  destruct (m s) as [[a|p] s1]; simpl in Hl1.
  - destruct (Hf a s1) as (l2 & Hl2 & Hlen2). exists (l1 ++ l2).
    rewrite Hl2, Hl1, length_app, app_assoc. split; [done | lia].
  - exists l1. simpl. split; [done | lia].
Qed.

Lemma atMost_void {A} n (m : M A) : atMost n m -> atMost n (void m).
Proof.
  intros Hm. apply (atMost_bind n 0); [done | intros; apply atMost_ret | lia].
Qed.

Lemma atMost_Call n recv name args :
  (1 <= n)%nat -> atMost n (Call recv name args).
Proof.
  intros Hn s. exists [(recv, name, args)]. unfold Call.
  destruct (jsCall recv name args (world s)) as [[v|p] w]; simpl;
    (split; [done | lia]).
Qed.

Lemma atMost_recoverErr {A} n (zero : A) (body : M A) :
  atMost n body -> atMost n (recoverErr zero body).
Proof.
  intros Hb s. unfold recoverErr. destruct (Hb s) as (l & Hl & Hlen).
  exists l. destruct (body s) as [[a|[code|]] s1]; simpl in *; try done.
  by destruct (errnoByCode code).
Qed.

Lemma atMost_fsCall n name args : (1 <= n)%nat -> atMost n (fsCall name args).
Proof. intros Hn. by apply atMost_recoverErr, atMost_Call. Qed.

Lemma atMost_fdToFile fd : atMost 0 (fdToFile fd).
Proof.
  intros s. exists []. unfold fdToFile.
  destruct (files s !! fd); simpl; by rewrite app_nil_r.
Qed.

Lemma atMost_setFile fd f : atMost 0 (setFile fd f).
Proof. intros s. exists []. simpl. by rewrite app_nil_r. Qed.

Lemma atMost_deleteFile fd : atMost 0 (deleteFile fd).
Proof. intros s. exists []. simpl. by rewrite app_nil_r. Qed.

Ltac budget n1 n :=
  let n2 := eval compute in (n - n1)%nat in
  apply (atMost_bind n1 n2 n); [| intros | simpl; lia].

Ltac atMost_step :=
  match goal with
  | |- atMost _ (void _) => apply atMost_void
  | |- atMost _ (ret _) => apply atMost_ret
  | |- atMost _ (fsCall _ _) => apply atMost_fsCall; lia
  | |- atMost _ (Call _ _ _) => apply atMost_Call; lia
  | |- atMost _ (recoverErr _ _) => apply atMost_recoverErr
  | |- atMost _ (fdToFile _) => apply atMost_fdToFile
  | |- atMost _ (setFile _ _) => apply atMost_setFile
  | |- atMost _ (deleteFile _) => apply atMost_deleteFile
  | |- atMost ?n (bind (fdToFile _) _) => budget 0%nat n
  | |- atMost ?n (bind (setFile _ _) _) => budget 0%nat n
  | |- atMost ?n (bind (deleteFile _) _) => budget 0%nat n
  | |- atMost ?n (bind _ _) => budget 1%nat n
  | |- atMost _ (match ?x with _ => _ end) => destruct x
  end.

Lemma exec_atMost o : atMost (maxCalls o) (exec o).
Proof.
  destruct o; simpl;
    unfold Open, Close, CloseOnExec, Mkdir, ReadDirent, Stat, Lstat,
      Unlink, Rmdir, Chmod, Fchmod, Chown, Fchown, Lchown, UtimesNano, Rename,
      Truncate, Ftruncate, Getcwd, Fchdir, Chdir, Readlink, Link, Symlink,
      Fsync, Read, Write, Pread, Pwrite, Seek, Fstat, Dup, Dup2, Pipe;
    cbv zeta; repeat atMost_step.
Qed.

(** X10.  A call of [Open] makes at most four host calls ([openSync],
    [fstatSync], the [isDirectory] method and [readdirSync]); [ReadDirent],
    [Chown], [Fchown], [Lchown], [Dup], [Dup2], [Pipe] and [CloseOnExec]
    make none; every other entry point makes at most one. *)
Theorem host_calls_bounded (o : op) (s : State) :
  exists l,
    calls (exec o s).2 = calls s ++ l /\ (length l <= maxCalls o)%nat.
Proof. apply exec_atMost. Qed.

End Calls.

(** ** Open and the table *)

Lemma dirEntries_array elems :
  dirEntries (jsArray elems) = Value_String <$> elems.
Proof.
  unfold dirEntries. simpl. apply list_eq. intros i.
  rewrite !list_lookup_fmap.
  destruct (decide (i < length elems)%nat) as [Hlt|Hge].
  - rewrite lookup_seq_lt by done. simpl.
    destruct (lookup_lt_is_Some_2 elems i Hlt) as [v ->]. done.
  - rewrite lookup_seq_ge by lia. rewrite lookup_ge_None_2 by lia. done.
Qed.

Lemma dirEntries_names names : dirEntries (jsNames names) = names.
Proof.
  unfold jsNames. rewrite dirEntries_array, <- list_fmap_compose.
  by rewrite list_fmap_id.
Qed.

Section OpenProps.
Context `{Host}.

Ltac call_step :=
  match goal with
  | |- context [fsCall ?name ?args ?st] =>
      let Hf := fresh "Hfiles" in
      pose proof (fsCall_files name args st) as Hf;
      destruct (fsCall name args st) as [[[? [?|]]|?] ?]; simpl in Hf
  end.

Ltac method_call :=
  match goal with
  | |- context [Call ?recv ?name ?args ?st] =>
      let Hf := fresh "Hfiles" in
      pose proof (Call_files recv name args st) as Hf;
      destruct (Call recv name args st) as [[?|?] ?]; simpl in Hf
  end.

Ltac table_eq :=
  simpl;
  repeat match goal with
         | Heq : files _ = files _ |- _ => rewrite Heq; clear Heq
         end;
  try done.

Lemma Open_files_aux path openmode perm s s1 fd :
  Open path openmode perm s = (Done (fd, None), s1) ->
  exists q,
    files s1 = <[fd := {| path := path; entries := q; pos := 0;
                         seeked := false |}]> (files s).
Proof.
  unfold Open, bind. destruct (checkPath path); [done|].
  call_step; [done | | done].
  call_step.
  - intros [= <- <-]. exists None. table_eq.
  - method_call; [|done]. destruct (Value_Bool _).
    + call_step; intros [= <- <-]. eexists. table_eq.
    + intros [= <- <-]. exists None. table_eq.
  - done.
Qed.

(** X11.  Whatever the host does, [Open] changes the table in one way only:
    when it returns a descriptor without an error, the table has a fresh
    record for that descriptor (the path as given, position 0, not
    positioned) and is otherwise as before; when it returns an error the
    descriptor returned is 0 and the table is untouched, as it is when a
    panic goes through. *)
Theorem Open_outcome (path : string) (openmode perm : Z) (s s1 : State)
    (r : result (Z * error)) :
  Open path openmode perm s = (r, s1) ->
  match r with
  | Done (fd, None) =>
      exists q,
        files s1 = <[fd := {| path := path; entries := q; pos := 0;
                             seeked := false |}]> (files s)
  | Done (fd, Some _) => fd = 0 /\ files s1 = files s
  | Panicked _ => files s1 = files s
  end.
Proof.
  unfold Open, bind. destruct (checkPath path); [by intros [= <- <-]|].
  call_step; [by intros [= <- <-] | | by intros [= <- <-]].
  call_step.
  - intros [= <- <-]. exists None. table_eq.
  - method_call; [|intros [= <- <-]; table_eq]. destruct (Value_Bool _).
    + call_step; intros [= <- <-].
      * split; [done | table_eq].
      * eexists. table_eq.
      * table_eq.
    + intros [= <- <-]. exists None. table_eq.
  - intros [= <- <-]. table_eq.
Qed.

(** X12.  After an accepted path and a successful [openSync] and
    [fstatSync], [Open] asks the metadata object whether it is a directory:
    when the [isDirectory] method answers false [Open] registers a record
    without a queue; when it answers true and [readdirSync] returns an
    array, [Open] registers the elements of the array as the queue, in the
    order of the array.  An error of [openSync] is returned with
    descriptor 0. *)
Theorem Open_registers (path : string) (openmode perm : Z) (s : State) :
  checkPath path = None ->
  let args := [GoString path; GoInt (openFlags openmode); GoInt perm] in
  (forall v errno s1,
     fsCall "openSync" args s = (Done (v, Some errno), s1) ->
     Open path openmode perm s = (Done (0, Some errno), s1)) /\
  (forall jsFD s1 stat s2 isDir s3,
     fsCall "openSync" args s = (Done (jsFD, None), s1) ->
     fsCall "fstatSync" [GoInt (Value_Int jsFD)] s1 = (Done (stat, None), s2) ->
     Call (jsThis stat) "isDirectory" [] s2 = (Done isDir, s3) ->
     let fd := Value_Int jsFD in
     (Value_Bool isDir = false ->
      Open path openmode perm s
      = (Done (fd, None),
         withFiles (<[fd := {| path := path; entries := None; pos := 0;
                               seeked := false |}]> (files s)) s3)) /\
     (Value_Bool isDir = true ->
      forall elems s4,
        fsCall "readdirSync" [GoString path] s3
        = (Done (jsArray elems, None), s4) ->
        Open path openmode perm s
        = (Done (fd, None),
           withFiles (<[fd := {| path := path;
                                 entries := Some (Value_String <$> elems);
                                 pos := 0; seeked := false |}]> (files s))
             s4))).
Proof.
  intros Hpath args. split.
  - intros v errno s1 Hopen. unfold Open, bind. fold args.
    by rewrite Hpath, Hopen.
  - intros jsFD s1 stat s2 isDir s3 Hopen Hstat Hcall fd.
    pose proof (fsCall_files "openSync" args s) as Hf1.
    pose proof (fsCall_files "fstatSync" [GoInt fd] s1) as Hf2.
    pose proof (Call_files (jsThis stat) "isDirectory" [] s2) as Hf3.
    rewrite Hopen in Hf1. fold fd in Hstat. rewrite Hstat in Hf2.
    rewrite Hcall in Hf3. simpl in Hf1, Hf2, Hf3. split.
    + intros Hdir. unfold Open, bind. fold args.
      rewrite Hpath, Hopen. fold fd. rewrite Hstat, Hcall, Hdir. simpl.
      unfold setFile. by rewrite Hf3, Hf2, Hf1.
    + intros Hdir elems s4 Hread.
      pose proof (fsCall_files "readdirSync" [GoString path] s3) as Hf4.
      rewrite Hread in Hf4. simpl in Hf4.
      unfold Open, bind. fold args.
      rewrite Hpath, Hopen. fold fd. rewrite Hstat, Hcall, Hdir, Hread. simpl.
      unfold setFile. by rewrite dirEntries_array, Hf4, Hf3, Hf2, Hf1.
Qed.

(** X13.  Closing the descriptor that [Open] has just returned puts the
    table back to what it was before the [Open], provided the number was not
    in use. *)
Theorem Open_Close_restores_table (path : string) (openmode perm : Z)
    (s s1 : State) (fd : Z) :
  Open path openmode perm s = (Done (fd, None), s1) ->
  files s !! fd = None ->
  files (Close fd s1).2 = files s.
Proof.
  intros Hopen Hfree.
  destruct (Open_files_aux path openmode perm s s1 fd Hopen) as [q Hq].
  destruct (Close_removes_entry_aux fd s1) as [-> _].
  rewrite Hq. by apply delete_insert_id.
Qed.

End OpenProps.

(** ** Draining a directory *)

Lemma total_app a b : total (a ++ b) = total a + total b.
Proof. induction a as [|e a IH]; simpl; [done | rewrite IH; lia]. Qed.

Lemma direntLoop_all q buf n0 :
  total q <= Z.of_nat (length buf) ->
  direntLoop q buf n0
  = ([], concat (dirent <$> q) ++ drop (Z.to_nat (total q)) buf, n0 + total q).
Proof.
  intros Hroom.
  destruct (direntLoop_spec q buf n0) as (k & Hk & Hle & Hstop & ->).
  assert (Hall : k = length q).
  { destruct (decide (k < length q)%nat) as [Hlt|]; [|lia].
    destruct (lookup_lt_is_Some_2 q k Hlt) as [e He].
    specialize (Hstop e He).
    rewrite <- (take_drop_middle q k e He), total_app in Hroom.
    simpl in Hroom. pose proof (total_nonneg (drop (S k) q)). lia. }
  subst k. by rewrite take_ge, drop_ge by lia.
Qed.

Section Draining.
Context `{Host}.

(** X14.  With a buffer that has room for the records of the whole queue,
    one [ReadDirent] delivers every entry, in order, and empties the queue;
    from then on [ReadDirent] returns zero bytes and no error, whatever the
    buffer, and changes nothing. *)
Theorem ReadDirent_drains (fd : Z) (buf : list byte) (s : State) (f : jsFile)
    (q : list string) :
  files s !! fd = Some f ->
  entries f = Some q ->
  total q <= Z.of_nat (length buf) ->
  let s1 := withFiles (<[fd := set_entries (Some []) f]> (files s)) s in
  ReadDirent fd buf s
  = (Done (concat (dirent <$> q) ++ drop (Z.to_nat (total q)) buf,
           total q, None), s1) /\
  (forall buf', ReadDirent fd buf' s1 = (Done (buf', 0, None), s1)).
Proof.
  intros Hf Hq Hroom s1. split.
  - rewrite (ReadDirent_eq _ _ _ _ _ Hf Hq), direntLoop_all by done.
    by rewrite Z.add_0_l.
  - intros buf'.
    rewrite (ReadDirent_eq fd buf' s1 (set_entries (Some []) f) []);
      [| apply lookup_insert_eq | done].
    simpl. unfold s1, withFiles. simpl. by rewrite insert_insert_eq.
Qed.

(** X15.  Two [ReadDirent] calls in a row, with any two buffers, deliver
    two consecutive stretches of the queue: what the first delivers, what
    the second delivers and what stays queued make up the queue as it was,
    in order, so no entry is delivered twice and none is skipped. *)
Theorem ReadDirent_twice (fd : Z) (buf1 buf2 : list byte) (s : State)
    (f : jsFile) (q : list string) :
  files s !! fd = Some f ->
  entries f = Some q ->
  exists (d1 d2 rest : list string) (s1 s2 : State),
    q = d1 ++ d2 ++ rest /\
    ReadDirent fd buf1 s
    = (Done (concat (dirent <$> d1) ++ drop (Z.to_nat (total d1)) buf1,
             total d1, None), s1) /\
    ReadDirent fd buf2 s1
    = (Done (concat (dirent <$> d2) ++ drop (Z.to_nat (total d2)) buf2,
             total d2, None), s2) /\
    entries <$> files s2 !! fd = Some (Some rest).
Proof.
  intros Hf Hq.
  destruct (direntLoop_spec q buf1 0) as (k1 & _ & _ & _ & Hl1).
  destruct (direntLoop_spec (drop k1 q) buf2 0) as (k2 & _ & _ & _ & Hl2).
  exists (take k1 q), (take k2 (drop k1 q)), (drop k2 (drop k1 q)).
  eexists _, _. split; [by rewrite !take_drop|]. split; [|split].
  - rewrite (ReadDirent_eq _ _ _ _ _ Hf Hq), Hl1. simpl.
    by rewrite Z.add_0_l.
  - erewrite ReadDirent_eq; [| apply lookup_insert_eq | done].
    rewrite Hl2. simpl. by rewrite Z.add_0_l.
  - simpl. by rewrite lookup_insert_eq.
Qed.

End Draining.

(** ** Reading, writing and seeking *)

Lemma set_pos_same f : set_pos (pos f) f = f.
Proof. by destruct f. Qed.

Section Transfers.
Context `{Host}.

(** X16.  A [Read] on a descriptor that has not been positioned calls the
    host's [readSync] without an offset, so the host reads at its own
    cursor; on a positioned descriptor the tracked [pos] is passed as the
    offset.  In both modes the count the host reports is returned and added
    to [pos], and nothing else in the record changes. *)
Theorem Read_advances (fd : Z) (b : list byte) (s : State) (f : jsFile) :
  files s !! fd = Some f ->
  let args := [GoInt fd; GoBytes b; GoInt 0; GoInt (Z.of_nat (length b))] in
  (seeked f = false -> forall v w,
     jsCall jsFS "readSync" args (world s) = (Returns v, w) ->
     Read fd b s
     = (Done (Value_Int v, None),
        withFiles (<[fd := set_pos (int64 (pos f + int64 (Value_Int v))) f]>
                     (files s))
          (afterCall s w (jsFS, "readSync", args)))) /\
  (seeked f = true -> forall v w,
     jsCall jsFS "readSync" (args ++ [GoInt (pos f)]) (world s)
     = (Returns v, w) ->
     Read fd b s
     = (Done (Value_Int v, None),
        withFiles (<[fd := set_pos (int64 (pos f + int64 (Value_Int v))) f]>
                     (files s))
          (afterCall s w (jsFS, "readSync", args ++ [GoInt (pos f)])))).
Proof.
  intros Hf args. split; intros Hmode v w Hcall; unfold Read, bind;
    rewrite (fdToFile_Some _ _ _ Hf), Hmode.
  - fold args. by rewrite (fsCall_returns _ _ _ _ _ Hcall).
  - unfold Pread, bind. simpl in Hcall.
    by rewrite (fsCall_returns _ _ _ _ _ Hcall).
Qed.

(** X17.  A [Write] on a descriptor that has not been positioned calls the
    host's [writeSync] without an offset, returns the count the host
    reports and adds it to the tracked [pos]; the descriptor stays
    unpositioned. *)
Theorem Write_tracks (fd : Z) (b : list byte) (s : State) (f : jsFile)
    (v : jsValue) (w : World) :
  files s !! fd = Some f ->
  seeked f = false ->
  let args := [GoInt fd; GoBytes b; GoInt 0; GoInt (Z.of_nat (length b))] in
  jsCall jsFS "writeSync" args (world s) = (Returns v, w) ->
  exists s',
    Write fd b s = (Done (Value_Int v, None), s') /\
    files s' = <[fd := set_pos (int64 (pos f + int64 (Value_Int v))) f]> (files s) /\
    calls s' = calls s ++ [(jsFS, "writeSync", args)] /\
    seeked (set_pos (int64 (pos f + int64 (Value_Int v))) f) = false.
Proof.
  intros Hf Hmode args Hcall. eexists. split; [|split; [|split]].
  - unfold Write, bind. rewrite (fdToFile_Some _ _ _ Hf), Hmode. fold args.
    by rewrite (fsCall_returns _ _ _ _ _ Hcall).
  - done.
  - done.
  - done.
Qed.

(** X18.  A [Read] or [Write] that returns an error returns the count 0 and
    leaves the table, and so the tracked position, as it was. *)
Theorem failed_transfer_keeps_position (fd : Z) (b : list byte) (s s' : State)
    (f : jsFile) (n : Z) (errno : Errno) :
  files s !! fd = Some f ->
  - 2 ^ 63 <= pos f < 2 ^ 63 ->
  (Read fd b s = (Done (n, Some errno), s') -> n = 0 /\ files s' = files s) /\
  (Write fd b s = (Done (n, Some errno), s') -> n = 0 /\ files s' = files s).
Proof.
  intros Hf Hpos.
  assert (Hsame : <[fd := set_pos (int64 (pos f + int64 0)) f]> (files s)
                  = files s).
  { rewrite (int64_id 0), Z.add_0_r, (int64_id (pos f)) by lia.
    rewrite set_pos_same. by apply insert_id. }
  split; [unfold Read, Pread | unfold Write, Pwrite]; unfold bind;
    rewrite (fdToFile_Some _ _ _ Hf);
    destruct (seeked f); rewrite fsCall_eq;
    match goal with
    | |- context [jsCall ?r ?nm ?a ?w] =>
        destruct (jsCall r nm a w) as [[?|[code|]] ?];
        [| destruct (errnoByCode code) |]
    end; simpl; try done; by intros [= <- <- <-].
Qed.

(** X19.  Whatever [Seek] is asked: when it returns a position without an
    error, that position is not negative, it is the new tracked [pos], and
    the descriptor is now positioned; in every other case the table is as
    it was. *)
Theorem Seek_outcome (fd offset whence : Z) (s s' : State) (f : jsFile)
    (r : result (Z * error)) :
  files s !! fd = Some f ->
  Seek fd offset whence s = (r, s') ->
  match r with
  | Done (p, None) =>
      0 <= p /\ files s' = <[fd := set_pos p (set_seeked true f)]> (files s)
  | _ => files s' = files s
  end.
Proof.
  intros Hf. unfold Seek, bind. rewrite (fdToFile_Some _ _ _ Hf). cbv zeta.
  destruct (whence =? SeekStart).
  { destruct (Z.ltb_spec offset 0); by intros [= <- <-]. }
  destruct (whence =? SeekCurrent).
  { destruct (Z.ltb_spec (int64 (pos f + offset)) 0); by intros [= <- <-]. }
  destruct (whence =? SeekEnd); [|by intros [= <- <-]].
  unfold Fstat, bind. rewrite fsCall_eq.
  destruct (jsCall jsFS "fstatSync" [GoInt fd] (world s)) as [[v|[code|]] w];
    [| destruct (errnoByCode code) |]; simpl; try by intros [= <- <-].
  match goal with |- context [if ?c <? 0 then _ else _] =>
    destruct (Z.ltb_spec c 0) end; by intros [= <- <-].
Qed.

(** X20.  A [Seek] relative to the end asks the host's [fstatSync] for the
    size: when the size plus the offset is a position that is not negative,
    that sum is returned and becomes the tracked [pos]; when [fstatSync]
    fails with a translatable error, that error is returned and the record
    is not touched. *)
Theorem Seek_end (fd offset : Z) (s : State) (f : jsFile) (w : World) :
  files s !! fd = Some f ->
  let call := (jsFS, "fstatSync", [GoInt fd]) in
  (forall v,
     jsCall jsFS "fstatSync" [GoInt fd] (world s) = (Returns v, w) ->
     let sz := size (Value_Stats v) in
     - 2 ^ 63 <= sz < 2 ^ 63 ->
     0 <= sz + offset < 2 ^ 63 ->
     Seek fd offset SeekEnd s
     = (Done (sz + offset, None),
        withFiles (<[fd := set_pos (sz + offset) (set_seeked true f)]> (files s))
          (afterCall s w call))) /\
  (forall code errno,
     jsCall jsFS "fstatSync" [GoInt fd] (world s) = (Throws (JsError code), w) ->
     errnoByCode code = Some errno ->
     Seek fd offset SeekEnd s = (Done (0, Some errno), afterCall s w call)).
Proof.
  intros Hf call. split.
  - intros v Hcall sz Hsz Hsum. unfold Seek, bind.
    rewrite (fdToFile_Some _ _ _ Hf). simpl.
    unfold Fstat, bind. rewrite (fsCall_returns _ _ _ _ _ Hcall). simpl.
    fold sz. rewrite (int64_id sz), (int64_id (sz + offset)) by lia.
    by destruct (Z.ltb_spec (sz + offset) 0); [lia|].
  - intros code errno Hcall Hknown. unfold Seek, bind.
    rewrite (fdToFile_Some _ _ _ Hf). simpl.
    unfold Fstat, bind. by rewrite fsCall_eq, Hcall, Hknown.
Qed.

End Transfers.

(** ** Copies into the caller's buffer *)

Lemma copy_spec (dst src : list byte) :
  let n := (length dst `min` length src)%nat in
  length (copy dst src) = length dst /\
  take n (copy dst src) = take n src /\
  drop n (copy dst src) = drop n dst.
Proof.
  cbn zeta. unfold copy.
  assert (Hlen : length (take (length dst) src)
                 = (length dst `min` length src)%nat)
    by (rewrite length_take; lia).
  split; [|split].
  - rewrite length_app, length_take, length_drop. lia.
  - rewrite take_app_length' by done.
    destruct (decide (length dst <= length src)%nat).
    + by rewrite Nat.min_l by lia.
    + rewrite Nat.min_r by lia. by rewrite !take_ge by lia.
  - rewrite drop_app_length' by done.
    destruct (decide (length src <= length dst)%nat).
    + by rewrite Nat.min_r by lia.
    + rewrite Nat.min_l by lia. by rewrite !drop_ge by lia.
Qed.

Section Copies.
Context `{Host}.

(** X21.  [Readlink] and [Getcwd] copy as much of the host's answer as the
    buffer holds and return that count, the smaller of the two lengths: a
    buffer that is too short gets the first bytes and no error.  The bytes
    of the buffer beyond the count are left as they were. *)
Theorem Readlink_Getcwd_copy (buf : list byte) (s : State) (answer : string)
    (w : World) :
  let n := Z.min (Z.of_nat (length buf)) (len answer) in
  let copied (buf' : list byte) :=
    length buf' = length buf /\
    take (Z.to_nat n) buf' = take (Z.to_nat n) (bytes answer) /\
    drop (Z.to_nat n) buf' = drop (Z.to_nat n) buf in
  (forall path,
     checkPath path = None ->
     jsCall jsFS "readlinkSync" [GoString path] (world s)
     = (Returns (jsString answer), w) ->
     exists buf',
       Readlink path buf s
       = (Done (buf', n, None),
          afterCall s w (jsFS, "readlinkSync", [GoString path])) /\
       copied buf') /\
  (jsCall jsProcess "cwd" [] (world s) = (Returns (jsString answer), w) ->
   exists buf',
     Getcwd buf s = (Done (buf', n, None), afterCall s w (jsProcess, "cwd", []))
     /\ copied buf').
Proof.
  intros n copied.
  assert (Hcopied : copied (copy buf (bytes answer))).
  { destruct (copy_spec buf (bytes answer)) as (Hl & Ht & Hd).
    rewrite length_bytes in Ht, Hd.
    assert (Hn : Z.to_nat n = (length buf `min` String.length answer)%nat)
      by (unfold n, len; lia).
    unfold copied. by rewrite Hn. }
  split.
  - intros path Hpath Hcall. exists (copy buf (bytes answer)).
    split; [|done]. unfold Readlink, bind.
    by rewrite Hpath, (fsCall_returns _ _ _ _ _ Hcall).
  - intros Hcall. exists (copy buf (bytes answer)).
    split; [|done]. unfold Getcwd, bind, recoverErr, Call.
    by rewrite Hcall.
Qed.

(** X22.  [Fchdir] changes to the path the descriptor was opened with: that
    path is what it hands to the host's [chdir].  A record with an empty
    path, as the three standard streams have from the start, makes it fail
    with [EINVAL] before any host call. *)
Theorem Fchdir_recorded_path (fd : Z) (s : State) (f : jsFile) :
  files s !! fd = Some f ->
  (checkPath (path f) = None -> forall v w,
     jsCall jsProcess "chdir" [GoString (path f)] (world s) = (Returns v, w) ->
     Fchdir fd s
     = (Done None, afterCall s w (jsProcess, "chdir", [GoString (path f)]))) /\
  (path f = "" -> Fchdir fd s = (Done (Some EINVAL), s)) /\
  (forall w k, k = 0 \/ k = 1 \/ k = 2 ->
     Fchdir k (start w) = (Done (Some EINVAL), start w)).
Proof.
  intros Hf. split; [|split].
  - intros Hpath v w Hcall. unfold Fchdir, bind.
    rewrite (fdToFile_Some _ _ _ Hf). simpl.
    unfold Chdir, bind, recoverErr, Call. by rewrite Hpath, Hcall.
  - intros Hempty. unfold Fchdir, bind.
    rewrite (fdToFile_Some _ _ _ Hf). simpl. unfold Chdir. by rewrite Hempty.
  - by intros w k [-> | [-> | ->]].
Qed.

End Copies.

(** ** Timestamps, exactly *)

(** X23.  The split of a millisecond timestamp by [setStat] loses nothing:
    the seconds and the nanoseconds give the milliseconds back, the
    nanoseconds are a whole number of milliseconds below one second in
    magnitude, and they are not negative when the timestamp is not. *)
Theorem setStat_time_exact (jsSt : jsStats) :
  let st := setStat jsSt in
  let exact (ms sec nsec : Z) :=
    1000 * sec + Z.quot nsec 1000000 = int64 ms /\
    Z.rem nsec 1000000 = 0 /\
    - 1000000000 < nsec < 1000000000 /\
    (0 <= int64 ms -> 0 <= sec /\ 0 <= nsec) in
  exact (atimeMs jsSt) (Atime st) (AtimeNsec st) /\
  exact (mtimeMs jsSt) (Mtime st) (MtimeNsec st) /\
  exact (ctimeMs jsSt) (Ctime st) (CtimeNsec st).
Proof.
  cbn zeta.
  assert (Hexact : forall ms,
    let x := int64 ms in
    let sec := int64 (Z.quot x 1000) in
    let nsec := int64 (Z.rem x 1000 * 1000000) in
    1000 * sec + Z.quot nsec 1000000 = x /\
    Z.rem nsec 1000000 = 0 /\
    - 1000000000 < nsec < 1000000000 /\
    (0 <= x -> 0 <= sec /\ 0 <= nsec)).
  { intros ms x sec nsec. subst sec nsec.
    pose proof (int64_range ms) as Hx. fold x in Hx.
    destruct (ms_split x Hx) as [-> ->].
    destruct (quot_rem_1000 x Hx) as [_ Hr].
    rewrite Z.quot_mul, Z.rem_mul by lia.
    pose proof (Z.quot_rem' x 1000) as Hqr.
    assert (Hq0 : 0 <= x -> 0 <= Z.quot x 1000)
      by (intros; apply Z.quot_pos; lia).
    assert (Hr0 : 0 <= x -> 0 <= Z.rem x 1000)
      by (intros; apply Z.rem_nonneg; lia).
    repeat split; intros; lia. }
  unfold setStat; simpl.
  split; [apply Hexact | split; apply Hexact].
Qed.

(** * The further properties on concrete hosts *)

Lemma checkPath_spec_witness :
  checkPath "f" = None /\ checkPath "" = Some EINVAL.
Proof.
  split.
  - apply (proj1 (checkPath_spec "f")). split; [discriminate|].
    intros Hin. apply list_elem_of_singleton in Hin. discriminate.
  - apply (proj2 (checkPath_spec "")). discriminate.
Defined.

Lemma rejected_path_is_local_witness :
  let s := @start scripted [] in
  checkPath "" <> None /\
  Open "" 0 0 s = (Done (0, Some EINVAL), s) /\
  Chdir "" s = (Done (Some EINVAL), s) /\
  Rename "a" "" s = (Done (Some EINVAL), s) /\
  Symlink "" "b" s = (Done (Some EINVAL), s).
Proof.
  intros s.
  assert (Hbad : checkPath "" <> None) by discriminate.
  pose proof (@rejected_path_is_local scripted "" s Hbad)
    as (Hopen & _ & _ & _ & _ & _ & _ & _ & _ & Hchdir & _ & Htwo).
  destruct (Htwo "a") as (_ & Hrename & _).
  destruct (Htwo "b") as (_ & _ & _ & _ & Hsymlink & _).
  split; [exact Hbad|]. split; [apply Hopen|]. split; [exact Hchdir|].
  split; [exact Hrename | exact Hsymlink].
Defined.

Lemma UtimesNano_wrong_length_witness :
  let s := @start scripted [] in
  let ts := [{| Sec := 1; Nsec := 2 |}] in
  length ts <> 2%nat /\
  UtimesNano "f" ts s = (Done (Some EINVAL), s).
Proof.
  intros s ts. split; [discriminate|].
  apply (@UtimesNano_wrong_length scripted "f" ts s). discriminate.
Defined.

Lemma table_changes_are_local_witness :
  let s := @start scripted [Returns (jsNumber 4)] in
  let o := OpWrite 0 [x61; x62; x63; x64] in
  isOpen o = false /\
  target o <> Some 1 /\
  files (exec o s).2 !! 1 = files s !! 1.
Proof.
  intros s o. split; [reflexivity|]. split; [discriminate|].
  apply (@table_changes_are_local scripted o 1 s); [reflexivity | discriminate].
Defined.

Lemma record_evolves_witness :
  let s := withDir ["a"; "bb"] [Returns (jsNumber 1)] in
  let f := {| path := "d"; entries := Some ["a"; "bb"]; pos := 0;
              seeked := false |} in
  let ops := [OpSeek 3 4 SeekStart; OpReadDirent 3 [x00; x00; x00];
              OpRead 3 [x00]; OpClose 0] in
  Forall (fun o => isOpen o = false /\ o <> OpClose 3) ops /\
  files s !! 3 = Some f /\
  exists f',
    files (run ops s) !! 3 = Some f' /\
    path f' = path f /\
    (seeked f = true -> seeked f' = true) /\
    (entries f = None -> entries f' = None) /\
    (forall q, entries f = Some q -> exists n : nat, entries f' = Some (drop n q)).
Proof.
  intros s f ops.
  assert (Hall : Forall (fun o => isOpen o = false /\ o <> OpClose 3) ops).
  { repeat (apply Forall_cons; split; [split; [reflexivity | discriminate]|]).
    apply Forall_nil. done. }
  split; [exact Hall|]. split; [reflexivity|].
  apply (@record_evolves scripted ops 3 s f Hall). reflexivity.
Defined.


Lemma refusing_is_polite : @polite refusing.
Proof.
  intros recv name args w p w' Hcall. injection Hcall as <- _.
  exists "ENOENT", 2. split; reflexivity.
Defined.


Lemma Open_outcome_witness :
  let s := @start scripted [Returns (jsNumber 3);
                            Returns (jsObject (fileStats 100))] in
  Open "f" 0 0 s = (Done (3, None), (Open "f" 0 0 s).2) /\
  exists q,
    files (Open "f" 0 0 s).2
    = <[3 := {| path := "f"; entries := q; pos := 0; seeked := false |}]>
        (files s).
Proof.
  intros s. split; [reflexivity|].
  apply (@Open_outcome scripted "f" 0 0 s (Open "f" 0 0 s).2 (Done (3, None))).
  reflexivity.
Defined.

Lemma Open_registers_witness :
  let listing := jsArray [jsString "a"; jsString "bb"] in
  let s := @start scripted [Returns (jsNumber 3); Returns (jsObject dirStats);
                            Returns (jsBool true); Returns listing] in
  let s1 := afterCall s [Returns (jsObject dirStats); Returns (jsBool true);
                         Returns listing]
              (jsFS, "openSync", [GoString "d"; GoInt 0; GoInt 0]) in
  let s2 := afterCall s1 [Returns (jsBool true); Returns listing]
              (jsFS, "fstatSync", [GoInt 3]) in
  let s3 := afterCall s2 [Returns listing]
              (jsThis (jsObject dirStats), "isDirectory", []) in
  let s4 := afterCall s3 [] (jsFS, "readdirSync", [GoString "d"]) in
  checkPath "d" = None /\
  fsCall "openSync" [GoString "d"; GoInt 0; GoInt 0] s
  = (Done (jsNumber 3, None), s1) /\
  fsCall "fstatSync" [GoInt 3] s1 = (Done (jsObject dirStats, None), s2) /\
  Call (jsThis (jsObject dirStats)) "isDirectory" [] s2
  = (Done (jsBool true), s3) /\
  fsCall "readdirSync" [GoString "d"] s3 = (Done (listing, None), s4) /\
  Open "d" 0 0 s
  = (Done (3, None),
     withFiles (<[3 := {| path := "d"; entries := Some ["a"; "bb"]; pos := 0;
                          seeked := false |}]> (files s)) s4).
Proof.
  intros listing s s1 s2 s3 s4.
  split; [reflexivity|]. split; [reflexivity|]. split; [reflexivity|].
  split; [reflexivity|]. split; [reflexivity|].
  destruct (@Open_registers scripted "d" 0 0 s eq_refl) as [_ Hok].
  destruct (Hok (jsNumber 3) s1 (jsObject dirStats) s2 (jsBool true) s3
              eq_refl eq_refl eq_refl) as [_ Hdir].
  apply (Hdir eq_refl [jsString "a"; jsString "bb"] s4). reflexivity.
Defined.

Lemma Open_Close_restores_table_witness :
  let s := @start scripted [Returns (jsNumber 3);
                            Returns (jsObject (fileStats 100));
                            Returns (jsBool false);
                            Throws (JsError "EIO")] in
  let s1 := (Open "f" 0 0 s).2 in
  Open "f" 0 0 s = (Done (3, None), s1) /\
  files s !! 3 = None /\
  files (Close 3 s1).2 = files s.
Proof.
  intros s s1. split; [reflexivity|]. split; [reflexivity|].
  apply (@Open_Close_restores_table scripted "f" 0 0 s s1 3); reflexivity.
Defined.

Lemma ReadDirent_drains_witness :
  let q := ["a"; "bb"; "ccc"] in
  let s := withDir q [] in
  let f := {| path := "d"; entries := Some q; pos := 0; seeked := false |} in
  let buf := replicate 12 x00 in
  let s1 := withFiles (<[3 := set_entries (Some []) f]> (files s)) s in
  (files s !! 3 = Some f /\ total q <= Z.of_nat (length buf)) /\
  ReadDirent 3 buf s
  = (Done (concat (dirent <$> q) ++ drop (Z.to_nat (total q)) buf,
           total q, None), s1) /\
  (forall buf', ReadDirent 3 buf' s1 = (Done (buf', 0, None), s1)).
Proof.
  intros q s f buf s1. split; [split; [reflexivity | discriminate]|].
  apply (@ReadDirent_drains scripted 3 buf s f q);
    [reflexivity | reflexivity | discriminate].
Defined.

Lemma ReadDirent_twice_witness :
  let q := ["a"; "bb"; "ccc"] in
  let s := withDir q [] in
  let f := {| path := "d"; entries := Some q; pos := 0; seeked := false |} in
  let buf1 := replicate 3 x00 in
  let buf2 := replicate 4 x00 in
  files s !! 3 = Some f /\
  exists (d1 d2 rest : list string) (s1 s2 : State),
    q = d1 ++ d2 ++ rest /\
    ReadDirent 3 buf1 s
    = (Done (concat (dirent <$> d1) ++ drop (Z.to_nat (total d1)) buf1,
             total d1, None), s1) /\
    ReadDirent 3 buf2 s1
    = (Done (concat (dirent <$> d2) ++ drop (Z.to_nat (total d2)) buf2,
             total d2, None), s2) /\
    entries <$> files s2 !! 3 = Some (Some rest).
Proof.
  intros q s f buf1 buf2. split; [reflexivity|].
  apply (@ReadDirent_twice scripted 3 buf1 buf2 s f q); reflexivity.
Defined.

Lemma Read_advances_witness :
  let b := [x00; x00; x00; x00] in
  let args := [GoInt 0; GoBytes b; GoInt 0; GoInt 4] in
  let s := @start scripted [Returns (jsNumber 2)] in
  let s1 := withFiles (<[0 := set_pos 7 (set_seeked true zeroFile)]> (files s)) s in
  files s !! 0 = Some zeroFile /\
  Read 0 b s
  = (Done (2, None),
     withFiles (<[0 := set_pos (int64 (0 + int64 2)) zeroFile]> (files s))
       (afterCall s [] (jsFS, "readSync", args))) /\
  Read 0 b s1
  = (Done (2, None),
     withFiles (<[0 := set_pos (int64 (7 + int64 2))
                          (set_pos 7 (set_seeked true zeroFile))]> (files s1))
       (afterCall s1 [] (jsFS, "readSync", args ++ [GoInt 7]))).
Proof.
  intros b args s s1. split; [reflexivity|]. split.
  - apply (proj1 (@Read_advances scripted 0 b s zeroFile eq_refl) eq_refl
             (jsNumber 2) []).
    reflexivity.
  - apply (proj2 (@Read_advances scripted 0 b s1
                    (set_pos 7 (set_seeked true zeroFile)) eq_refl) eq_refl
             (jsNumber 2) []).
    reflexivity.
Defined.

Lemma Write_tracks_witness :
  let b := [x61; x62; x63] in
  let args := [GoInt 1; GoBytes b; GoInt 0; GoInt 3] in
  let s := @start scripted [Returns (jsNumber 3)] in
  files s !! 1 = Some zeroFile /\
  exists s',
    Write 1 b s = (Done (3, None), s') /\
    files s' = <[1 := set_pos (int64 (0 + int64 3)) zeroFile]> (files s) /\
    calls s' = calls s ++ [(jsFS, "writeSync", args)] /\
    seeked (set_pos (int64 (0 + int64 3)) zeroFile) = false.
Proof.
  intros b args s. split; [reflexivity|].
  apply (@Write_tracks scripted 1 b s zeroFile (jsNumber 3) []); reflexivity.
Defined.

Lemma failed_transfer_keeps_position_witness :
  let s := @start scripted [Throws (JsError "EIO")] in
  let b := [x00; x00] in
  files s !! 0 = Some zeroFile /\
  Read 0 b s = (Done (0, Some 5), (Read 0 b s).2) /\
  Write 0 b s = (Done (0, Some 5), (Write 0 b s).2) /\
  files (Read 0 b s).2 = files s /\
  files (Write 0 b s).2 = files s.
Proof.
  intros s b.
  assert (Hpos : - 2 ^ 63 <= pos zeroFile < 2 ^ 63) by (simpl; lia).
  pose proof (@failed_transfer_keeps_position scripted 0 b s (Read 0 b s).2
                zeroFile 0 5 eq_refl Hpos) as [Hread _].
  pose proof (@failed_transfer_keeps_position scripted 0 b s (Write 0 b s).2
                zeroFile 0 5 eq_refl Hpos) as [_ Hwrite].
  split; [reflexivity|]. split; [reflexivity|]. split; [reflexivity|].
  split; [apply Hread | apply Hwrite]; reflexivity.
Defined.

Lemma Seek_outcome_witness :
  let s := @start scripted [Returns (jsObject (fileStats 100))] in
  files s !! 2 = Some zeroFile /\
  Seek 2 (-10) SeekEnd s = (Done (90, None), (Seek 2 (-10) SeekEnd s).2) /\
  0 <= 90 /\
  files (Seek 2 (-10) SeekEnd s).2
  = <[2 := set_pos 90 (set_seeked true zeroFile)]> (files s).
Proof.
  intros s. split; [reflexivity|]. split; [reflexivity|].
  apply (@Seek_outcome scripted 2 (-10) SeekEnd s (Seek 2 (-10) SeekEnd s).2
           zeroFile (Done (90, None))); reflexivity.
Defined.

Lemma Seek_end_witness :
  let s := @start scripted [Returns (jsObject (fileStats 100))] in
  let s' := @start scripted [Throws (JsError "EIO")] in
  let call := (jsFS, "fstatSync", [GoInt 2]) in
  files s !! 2 = Some zeroFile /\
  Seek 2 (-10) SeekEnd s
  = (Done (100 + -10, None),
     withFiles (<[2 := set_pos (100 + -10) (set_seeked true zeroFile)]>
                  (files s)) (afterCall s [] call)) /\
  Seek 2 (-10) SeekEnd s' = (Done (0, Some 5), afterCall s' [] call).
Proof.
  intros s s' call. split; [reflexivity|]. split.
  - apply (proj1 (@Seek_end scripted 2 (-10) s zeroFile [] eq_refl)
             (jsObject (fileStats 100)) eq_refl); simpl; lia.
  - apply (proj2 (@Seek_end scripted 2 (-10) s' zeroFile [] eq_refl)
             "EIO" 5); reflexivity.
Defined.

Lemma Readlink_Getcwd_copy_witness :
  let s := @start scripted [Returns (jsString "/tmp/x")] in
  let buf := replicate 4 x00 in
  checkPath "l" = None /\
  (exists buf',
     Readlink "l" buf s
     = (Done (buf', 4, None),
        afterCall s [] (jsFS, "readlinkSync", [GoString "l"])) /\
     length buf' = length buf /\
     take 4 buf' = take 4 (bytes "/tmp/x") /\
     drop 4 buf' = drop 4 buf) /\
  (exists buf',
     Getcwd buf s = (Done (buf', 4, None), afterCall s [] (jsProcess, "cwd", []))
     /\ length buf' = length buf /\
     take 4 buf' = take 4 (bytes "/tmp/x") /\
     drop 4 buf' = drop 4 buf).
Proof.
  intros s buf. split; [reflexivity|]. split.
  - apply (proj1 (@Readlink_Getcwd_copy scripted buf s "/tmp/x" []) "l");
      reflexivity.
  - apply (proj2 (@Readlink_Getcwd_copy scripted buf s "/tmp/x" []));
      reflexivity.
Defined.

Lemma Fchdir_recorded_path_witness :
  let s := withDir [] [Returns jsUndefined] in
  let f := {| path := "d"; entries := Some []; pos := 0; seeked := false |} in
  files s !! 3 = Some f /\
  Fchdir 3 s
  = (Done None, afterCall s [] (jsProcess, "chdir", [GoString "d"])) /\
  Fchdir 0 s = (Done (Some EINVAL), s) /\
  Fchdir 1 (@start scripted []) = (Done (Some EINVAL), @start scripted []).
Proof.
  intros s f.
  pose proof (@Fchdir_recorded_path scripted 3 s f eq_refl) as (Hdir & _ & Hstd).
  pose proof (@Fchdir_recorded_path scripted 0 s zeroFile eq_refl)
    as (_ & Hempty & _).
  split; [reflexivity|]. split; [|split].
  - apply (Hdir eq_refl jsUndefined []). reflexivity.
  - apply Hempty. reflexivity.
  - apply (Hstd [] 1). right. left. reflexivity.
Defined.

Lemma setStat_time_exact_witness :
  let st := setStat dirStats in
  1000 * Atime st + Z.quot (AtimeNsec st) 1000000 = int64 1500 /\
  (0 <= int64 1500 -> 0 <= Atime st /\ 0 <= AtimeNsec st).
Proof.
  intros st.
  destruct (setStat_time_exact dirStats) as ((Hsum & _ & _ & Hsign) & _).
  split; [exact Hsum | exact Hsign].
Defined.

(** The four host calls of an [Open] on a directory, in order. *)
Example Open_directory_calls :
  let listing := jsArray [jsString "a"] in
  let s := @start scripted [Returns (jsNumber 3); Returns (jsObject dirStats);
                            Returns (jsBool true); Returns listing] in
  calls (Open "d" 0 0 s).2
  = [(jsFS, "openSync", [GoString "d"; GoInt 0; GoInt 0]);
     (jsFS, "fstatSync", [GoInt 3]);
     (jsThis (jsObject dirStats), "isDirectory", []);
     (jsFS, "readdirSync", [GoString "d"])].
Proof. reflexivity. Qed.
